(** * ESP8266 access control firmware: card registry, registration mode,
      scan routing and web command dispatch.

    Shallow embedding of [arduino/ESP8266_Access_Control/ESP8266_Access_Control.ino].

    - A [byte] is [Byte.byte]; integer promotion is [b2z], the implicit
      conversion of an [int] to a [byte] is [z2b] (reduction modulo 256).
    - The global [EEPROM] object is its RAM buffer, a [list byte] whose
      length is the size given to [EEPROM.begin]; [EEPROM.commit] only
      flushes that buffer and is the identity here.
    - The globals [regMode], [regModeStarted], together with everything the
      sketch sends to the audio module, the relay, the card reader and the
      HTTP client, form a [World] that every effectful function threads.
    - [Serial] debug printing and [delay] are not part of the [World];
      the text [printUIDHex] prints is given as a function of its own. *)

From Stdlib Require Import ZArith Lia Bool List.
From Stdlib Require Import Strings.Byte Strings.Ascii.
From stdpp Require Import base decidable option list list_numbers strings.

Local Open Scope Z_scope.

(** ** Bytes and integer conversions *)

Abbreviation byte := Byte.byte.

Definition b2z (b : byte) : Z := Z.of_N (Byte.to_N b).

Definition z2b (z : Z) : byte :=
  match Byte.of_N (Z.to_N (z mod 256)) with
  | Some b => b
  | None => x00
  end.

(** ** Settings of the sketch *)

Definition RELAY_ON_TIME_MS : Z := 5000.
Definition REG_MODE_TIMEOUT_MS : Z := 15000.
Definition MAX_CARDS : Z := 50.
Definition EEPROM_SIZE : Z := 512.

Definition AUDIO_BEEP_FAIL : Z := 1.
Definition AUDIO_CUSTOMER : Z := 2.
Definition AUDIO_ADMIN_1 : Z := 3.
Definition AUDIO_ADMIN_2 : Z := 4.
Definition AUDIO_ADMIN_3 : Z := 5.
Definition AUDIO_ADMIN_4 : Z := 6.
Definition AUDIO_ADMIN_5 : Z := 7.
Definition AUDIO_ADMIN_6 : Z := 8.
Definition AUDIO_BEEP_OK : Z := 9.
Definition AUDIO_BOSS : Z := 10.
Definition AUDIO_ATTENDANCE : Z := 11.
Definition AUDIO_FAILURE : Z := 12.
Definition AUDIO_ADMIN_1_CLOCKIN : Z := 13.
Definition AUDIO_ADMIN_2_CLOCKIN : Z := 14.
Definition AUDIO_ADMIN_3_CLOCKIN : Z := 15.
Definition AUDIO_ADMIN_4_CLOCKIN : Z := 16.
Definition AUDIO_MASTER : Z := 17.
Definition AUDIO_REGISTER : Z := 18.
Definition AUDIO_ADMIN_1_CLOCKOUT : Z := 19.
Definition AUDIO_ADMIN_2_CLOCKOUT : Z := 20.
Definition AUDIO_ADMIN_3_CLOCKOUT : Z := 21.
Definition AUDIO_ADMIN_4_CLOCKOUT : Z := 22.

(** Every audio file index the sketch defines. *)
Definition audio_cues : list Z :=
  [ AUDIO_BEEP_FAIL; AUDIO_CUSTOMER; AUDIO_ADMIN_1; AUDIO_ADMIN_2;
    AUDIO_ADMIN_3; AUDIO_ADMIN_4; AUDIO_ADMIN_5; AUDIO_ADMIN_6;
    AUDIO_BEEP_OK; AUDIO_BOSS; AUDIO_ATTENDANCE; AUDIO_FAILURE;
    AUDIO_ADMIN_1_CLOCKIN; AUDIO_ADMIN_2_CLOCKIN; AUDIO_ADMIN_3_CLOCKIN;
    AUDIO_ADMIN_4_CLOCKIN; AUDIO_MASTER; AUDIO_REGISTER;
    AUDIO_ADMIN_1_CLOCKOUT; AUDIO_ADMIN_2_CLOCKOUT; AUDIO_ADMIN_3_CLOCKOUT;
    AUDIO_ADMIN_4_CLOCKOUT ].

(** ** The EEPROM object

    [EEPROM.read] answers 0 and [EEPROM.write] does nothing when the
    address is negative or not below the size of the buffer. *)

Abbreviation EEPROM := (list byte).

Definition EEPROM_read (e : EEPROM) (address : Z) : byte :=
  if (address <? 0) || (Z.of_nat (length e) <=? address) then x00
  else default x00 (e !! Z.to_nat address).

Definition EEPROM_write (address : Z) (value : byte) (e : EEPROM) : EEPROM :=
  if (address <? 0) || (Z.of_nat (length e) <=? address) then e
  else <[Z.to_nat address := value]> e.

(** ** Loops

    [for (i = lo; ...; i++) s = body(i, s)], run [n] times from [lo]. *)
Fixpoint for_loop {S : Type} (n : nat) (lo : Z) (body : Z -> S -> S) (s : S) : S :=
  match n with
  | O => s
  | S n' => for_loop n' (lo + 1) body (body lo s)
  end.

(** [for (i = lo; ...; i++) if (p(i)) return ...]: the first of [n]
    indices from [lo] at which the loop is left, if any. *)
Fixpoint for_first (n : nat) (lo : Z) (p : Z -> bool) : option Z :=
  match n with
  | O => None
  | S n' => if p lo then Some lo else for_first n' (lo + 1) p
  end.

(** ** Card identifiers: [byte uid[4]] *)

Record UID : Type := mkUID { uid0 : byte; uid1 : byte; uid2 : byte; uid3 : byte }.

Definition uid_at (u : UID) (i : Z) : byte :=
  if i =? 0 then uid0 u else if i =? 1 then uid1 u
  else if i =? 2 then uid2 u else uid3 u.

Definition uid_fill (f : Z -> byte) : UID := mkUID (f 0) (f 1) (f 2) (f 3).

Definition compareUID (a b : UID) : bool :=
  match for_first 4 0 (fun i => negb (b2z (uid_at a i) =? b2z (uid_at b i))) with
  | Some _ => false
  | None => true
  end.

Definition isUIDEmpty (u : UID) : bool :=
  match for_first 4 0 (fun i => negb (b2z (uid_at u i) =? 0xFF)
                                 && negb (b2z (uid_at u i) =? 0x00)) with
  | Some _ => false
  | None => true
  end.

(** ** Persistent card store *)

Definition readMasterUID (e : EEPROM) : UID :=
  uid_fill (fun i => EEPROM_read e i).

Definition writeMasterUID (inp : UID) (e : EEPROM) : EEPROM :=
  for_loop 4 0 (fun i e => EEPROM_write i (uid_at inp i) e) e.

Definition readCount (e : EEPROM) : byte := EEPROM_read e 4.

Definition writeCount (c : byte) (e : EEPROM) : EEPROM := EEPROM_write 4 c e.

Definition cardAddr (index : Z) : Z := 5 + index * 4.

(** [for (int b = 0; b < 4; b++) stored[b] = EEPROM.read(addr + b);] *)
Definition readUIDAt (e : EEPROM) (addr : Z) : UID :=
  uid_fill (fun b => EEPROM_read e (addr + b)).

(** [for (int b = 0; b < 4; b++) EEPROM.write(addr + b, uid[b]);] *)
Definition writeUIDAt (addr : Z) (uid : UID) (e : EEPROM) : EEPROM :=
  for_loop 4 0 (fun b e => EEPROM_write (addr + b) (uid_at uid b) e) e.

Definition isAuthorized (e : EEPROM) (uid : UID) : bool :=
  let cnt := readCount e in
  match for_first (Z.to_nat (b2z cnt)) 0
          (fun i => compareUID uid (readUIDAt e (cardAddr i))) with
  | Some _ => true
  | None => false
  end.

Definition removeCardAtIndex (idx : byte) (e : EEPROM) : EEPROM :=
  let cnt := readCount e in
  if b2z cnt <=? b2z idx then e
  else
    let e1 :=
      for_loop (Z.to_nat (b2z cnt - 1 - b2z idx)) (b2z idx)
        (fun i e =>
           let next := readUIDAt e (cardAddr (i + 1)) in
           writeUIDAt (cardAddr i) next e) e in
    let lastAddr := cardAddr (b2z cnt - 1) in
    let e2 := for_loop 4 0 (fun b e => EEPROM_write (lastAddr + b) xff e) e1 in
    writeCount (z2b (b2z cnt - 1)) e2.

(** ** The world outside the store *)

Inductive Event : Type :=
| DfSerialWrite (frame : list byte)
| RelayPulse (ms : Z)
| ServerSend (code : Z) (contentType body : string)
| ServerSendPage
| CardHalt
| EspRestart.

Record World : Type := mkWorld {
  eeprom : EEPROM;
  regMode : bool;
  regModeStarted : Z;
  output : list Event
}.

Definition set_eeprom (f : EEPROM -> EEPROM) (w : World) : World :=
  mkWorld (f (eeprom w)) (regMode w) (regModeStarted w) (output w).

Definition set_regMode (b : bool) (w : World) : World :=
  mkWorld (eeprom w) b (regModeStarted w) (output w).

Definition set_regModeStarted (t : Z) (w : World) : World :=
  mkWorld (eeprom w) (regMode w) t (output w).

Definition emit (ev : Event) (w : World) : World :=
  mkWorld (eeprom w) (regMode w) (regModeStarted w) (output w ++ [ev]).

(** [unsigned long] arithmetic of [millis() - regModeStarted]. *)
Definition u32 (z : Z) : Z := z mod 2 ^ 32.

(** ** DFPlayer Mini *)

Definition df_frame (command param1 param2 : byte) : list byte :=
  let sum := - (0xFF + 0x06 + b2z command + 0x00 + b2z param1 + b2z param2) in
  [ x7e; xff; x06; command; x00; param1; param2;
    z2b (Z.land (Z.shiftr sum 8) 0xFF); z2b (Z.land sum 0xFF); xef ].

Definition sendDFCommand (command param1 param2 : byte) (w : World) : World :=
  emit (DfSerialWrite (df_frame command param1 param2)) w.

Definition playAudio (fileNumber : Z) (w : World) : World :=
  sendDFCommand x03 x00 (z2b fileNumber) w.

Definition initDFPlayer (w : World) : World := sendDFCommand x06 x00 (z2b 30) w.

Definition activateRelay (w : World) : World := emit (RelayPulse RELAY_ON_TIME_MS) w.

(** ** Registry mutation from the scan path *)

Definition addCard (uid : UID) (w : World) : World :=
  let cnt := readCount (eeprom w) in
  if MAX_CARDS <=? b2z cnt then w
  else
    let addr := cardAddr (b2z cnt) in
    let w := set_eeprom (writeUIDAt addr uid) w in
    let w := set_eeprom (writeCount (z2b (b2z cnt + 1))) w in
    playAudio AUDIO_REGISTER w.

Definition toggleAuthorizedCard (uid : UID) (w : World) : World :=
  let cnt := readCount (eeprom w) in
  match for_first (Z.to_nat (b2z cnt)) 0
          (fun i => compareUID uid (readUIDAt (eeprom w) (cardAddr i))) with
  | Some i =>
      let w := set_eeprom (removeCardAtIndex (z2b i)) w in
      playAudio AUDIO_BEEP_FAIL w
  | None => addCard uid w
  end.

Definition handleMasterScan (millis : Z) (w : World) : World :=
  if negb (regMode w) then
    let w := set_regMode true w in
    let w := set_regModeStarted millis w in
    playAudio AUDIO_MASTER w
  else
    let w := set_regMode false w in
    playAudio AUDIO_BEEP_OK w.

Definition initEEPROM (e : EEPROM) : EEPROM :=
  let count := EEPROM_read e 4 in
  if MAX_CARDS <? b2z count then
    let e := for_loop (Z.to_nat EEPROM_SIZE) 0 (fun i e => EEPROM_write i xff e) e in
    EEPROM_write 4 x00 e
  else e.

(** ** Web server *)

Inductive Handler : Type :=
| HRoot
| HCommand (name : string) (audioID : Z) (triggerRelay : bool)
| HReboot.

(** The routes registered by [setup], in registration order. *)
Definition routes : list (string * Handler) :=
  [ ("/", HRoot);
    ("/customer", HCommand "Customer" AUDIO_CUSTOMER false);
    ("/admin1", HCommand "Admin 1" AUDIO_ADMIN_1 true);
    ("/admin2", HCommand "Admin 2" AUDIO_ADMIN_2 true);
    ("/admin3", HCommand "Admin 3" AUDIO_ADMIN_3 true);
    ("/admin4", HCommand "Admin 4" AUDIO_ADMIN_4 true);
    ("/admin5", HCommand "Admin 5" AUDIO_ADMIN_5 true);
    ("/admin6", HCommand "Admin 6" AUDIO_ADMIN_6 true);
    ("/boss", HCommand "Boss" AUDIO_BOSS true);
    ("/attendance", HCommand "Attendance" AUDIO_ATTENDANCE false);
    ("/admin1_clockin", HCommand "Admin 1 Clock In" AUDIO_ADMIN_1_CLOCKIN false);
    ("/admin2_clockin", HCommand "Admin 2 Clock In" AUDIO_ADMIN_2_CLOCKIN false);
    ("/admin3_clockin", HCommand "Admin 3 Clock In" AUDIO_ADMIN_3_CLOCKIN false);
    ("/admin4_clockin", HCommand "Admin 4 Clock In" AUDIO_ADMIN_4_CLOCKIN false);
    ("/admin1_clockout", HCommand "Admin 1 Clock Out" AUDIO_ADMIN_1_CLOCKOUT false);
    ("/admin2_clockout", HCommand "Admin 2 Clock Out" AUDIO_ADMIN_2_CLOCKOUT false);
    ("/admin3_clockout", HCommand "Admin 3 Clock Out" AUDIO_ADMIN_3_CLOCKOUT false);
    ("/admin4_clockout", HCommand "Admin 4 Clock Out" AUDIO_ADMIN_4_CLOCKOUT false);
    ("/admin1_relay", HCommand "Admin 1 Relay Only" 0 true);
    ("/admin2_relay", HCommand "Admin 2 Relay Only" 0 true);
    ("/admin3_relay", HCommand "Admin 3 Relay Only" 0 true);
    ("/admin4_relay", HCommand "Admin 4 Relay Only" 0 true);
    ("/admin5_relay", HCommand "Admin 5 Relay Only" 0 true);
    ("/admin6_relay", HCommand "Admin 6 Relay Only" 0 true);
    ("/boss_relay", HCommand "Boss Relay Only" 0 true);
    ("/failure", HCommand "Failure" AUDIO_FAILURE false);
    ("/beep_ok", HCommand "Beep OK" AUDIO_BEEP_OK false);
    ("/beep_fail", HCommand "Beep Fail" AUDIO_BEEP_FAIL false);
    ("/master", HCommand "Master" AUDIO_MASTER false);
    ("/register", HCommand "Register" AUDIO_REGISTER false);
    ("/reboot", HReboot) ].

Fixpoint find_route (uri : string) (rs : list (string * Handler)) : option Handler :=
  match rs with
  | [] => None
  | (path, h) :: rs' => if String.eqb uri path then Some h else find_route uri rs'
  end.

Definition handleRoot (w : World) : World := emit ServerSendPage w.

Definition handleCommand (name : string) (audioID : Z) (triggerRelay : bool)
    (w : World) : World :=
  let w := playAudio audioID w in
  let w := if triggerRelay then activateRelay w else w in
  emit (ServerSend 200 "text/plain" "OK") w.

Definition handleReboot (w : World) : World :=
  let w := emit (ServerSend 200 "text/plain" "Rebooting...") w in
  emit EspRestart w.

Definition handleNotFound (w : World) : World :=
  emit (ServerSend 404 "text/plain" "Not Found") w.

(** What running a request handler leaves behind: the sketch goes on, or
    the chip restarts. *)
Inductive Control : Type :=
| Running (w : World)
| Restarted (w : World).

Definition world_of (c : Control) : World :=
  match c with Running w | Restarted w => w end.

(** [server.handleClient()] with the pending request, if there is one. *)
Definition handleClient (request : option string) (w : World) : Control :=
  match request with
  | None => Running w
  | Some uri =>
      match find_route uri routes with
      | Some HRoot => Running (handleRoot w)
      | Some (HCommand name audioID triggerRelay) =>
          Running (handleCommand name audioID triggerRelay w)
      | Some HReboot => Restarted (handleReboot w)
      | None => Running (handleNotFound w)
      end
  end.

(** The request that a command of the remote-control vocabulary makes. *)
Definition command_uri (name : string) : string := String.append "/" name.

Definition dispatch (name : string) (w : World) : Control :=
  handleClient (Some (command_uri name)) w.

(** ** Setup and main loop *)

(** [setup] after power-up or [ESP.restart]: the globals take their
    initial values and the store is checked.  The WiFi connection, the
    reader and pin initialisation leave the world as it is. *)
Definition setup (w : World) : World :=
  let w := set_regModeStarted 0 (set_regMode false w) in
  let w := set_eeprom initEEPROM w in
  initDFPlayer w.

(** One iteration of [loop]: [request] is the HTTP request pending for
    [server.handleClient], [card] the identifier read if a new card is
    present and readable, [millis] the clock read in this iteration. *)
Record Poll : Type := mkPoll {
  request : option string;
  card : option UID;
  millis : Z
}.

Definition loop (p : Poll) (w : World) : World :=
  match handleClient (request p) w with
  | Restarted w => setup w
  | Running w =>
      match card p with
      | None => w
      | Some uid =>
          let master := readMasterUID (eeprom w) in
          if isUIDEmpty master then
            let w := set_eeprom (writeMasterUID uid) w in
            playAudio AUDIO_MASTER w
          else if compareUID uid master then
            let w := handleMasterScan (millis p) w in
            emit CardHalt w
          else
            let w :=
              if regMode w then toggleAuthorizedCard uid w
              else if isAuthorized (eeprom w) uid then
                let w := playAudio AUDIO_BEEP_OK w in
                activateRelay w
              else playAudio AUDIO_BEEP_FAIL w in
            let w := emit CardHalt w in
            if regMode w
               && (REG_MODE_TIMEOUT_MS <? u32 (millis p - regModeStarted w))
            then set_regMode false w
            else w
      end
  end.

(** The authorized identifiers, in slot order: what the store means. *)
Definition cards (e : EEPROM) : list UID :=
  (fun i => readUIDAt e (cardAddr i)) <$> seqZ 0 (b2z (readCount e)).

(** The loop that [isAuthorized] and [toggleAuthorizedCard] both run over
    the stored slots: the first slot holding [uid]. *)
Definition find_slot (e : EEPROM) (uid : UID) : option Z :=
  for_first (Z.to_nat (b2z (readCount e))) 0
    (fun i => compareUID uid (readUIDAt e (cardAddr i))).

(** The body of the shifting loop of [removeCardAtIndex]. *)
Definition shift_body (i : Z) (e : EEPROM) : EEPROM :=
  let next := readUIDAt e (cardAddr (i + 1)) in
  writeUIDAt (cardAddr i) next e.

(** What [addCard] writes to the buffer when there is room. *)
Definition store_add (uid : UID) (e : EEPROM) : EEPROM :=
  writeCount (z2b (b2z (readCount e) + 1))
    (writeUIDAt (cardAddr (b2z (readCount e))) uid e).

(** A buffer of the size the sketch asks for, with a count in bounds. *)
Definition store_wf (e : EEPROM) : Prop :=
  length e = Z.to_nat EEPROM_SIZE /\ b2z (readCount e) <= MAX_CARDS.

(** What [toggleAuthorizedCard] does to the buffer. *)
Definition store_toggle (uid : UID) (e : EEPROM) : EEPROM :=
  match find_slot e uid with
  | Some i => removeCardAtIndex (z2b i) e
  | None => if MAX_CARDS <=? b2z (readCount e) then e else store_add uid e
  end.

(** The EEPROM as [initEEPROM] leaves it after a wipe. *)
Definition wiped : EEPROM := <[4%nat := x00]> (replicate (Z.to_nat EEPROM_SIZE) xff).

Definition sentinelFF : UID := mkUID xff xff xff xff.
Definition sentinel00 : UID := mkUID x00 x00 x00 x00.

(** The command names of the remote-control vocabulary; the request for
    the command [name] is [command_uri name]. *)
Definition command_vocabulary : list string :=
  [ "customer"; "admin1"; "admin2"; "admin3"; "admin4"; "admin5"; "admin6";
    "boss"; "attendance";
    "admin1_clockin"; "admin2_clockin"; "admin3_clockin"; "admin4_clockin";
    "admin1_clockout"; "admin2_clockout"; "admin3_clockout"; "admin4_clockout";
    "admin1_relay"; "admin2_relay"; "admin3_relay"; "admin4_relay";
    "admin5_relay"; "admin6_relay"; "boss_relay";
    "failure"; "beep_ok"; "beep_fail"; "master"; "register" ].

Definition relay_only_commands : list string :=
  [ "admin1_relay"; "admin2_relay"; "admin3_relay"; "admin4_relay";
    "admin5_relay"; "admin6_relay"; "boss_relay" ].

(** ** Sample cards and runs *)

Definition cardM : UID := mkUID xaa xbb xcc xdd.
Definition cardA : UID := mkUID x11 x22 x33 x44.
Definition cardB : UID := mkUID x01 x02 x03 x04.
Definition cardMixed : UID := mkUID x00 xff x00 xff.

(** A loop iteration in which only a card shows up. *)
Definition scan (uid : UID) (t : Z) : Poll := mkPoll None (Some uid) t.

(** A loop iteration with neither request nor card. *)
Definition idle (t : Z) : Poll := mkPoll None None t.

(** First boot on erased flash. *)
Definition w_fresh : World :=
  setup (mkWorld (replicate (Z.to_nat EEPROM_SIZE) xff) false 0 []).

(** The first card scanned becomes master. *)
Definition w_master : World := loop (scan cardM 0) w_fresh.

(** The master arms registration at 10 ms; cards A and B are enrolled. *)
Definition w_two : World :=
  loop (scan cardB 30) (loop (scan cardA 20) (loop (scan cardM 10) w_master)).

(** The master closes registration, and arms it again at 1000 ms. *)
Definition w_rearmed : World :=
  loop (scan cardM 1000) (loop (scan cardM 40) w_two).

(** Nothing is scanned until 16001 ms; the loop keeps polling. *)
Definition w_waited : World :=
  loop (idle 16000) (loop (idle 9000) (loop (idle 2000) w_rearmed)).

(** Registration armed and fifty cards enrolled. *)
Definition w_full : World :=
  for_loop 50 0 (fun i w => addCard (mkUID x10 x00 x00 (z2b i)) w)
    (loop (scan cardM 10) w_master).

(** ** Invariants of the registry *)

(** The three conditions of the data model: no identifier stored twice, at
    most [MAX_CARDS] of them, the master not among them. *)
Definition store_ok (e : EEPROM) : Prop :=
  NoDup (cards e) /\
  b2z (readCount e) <= MAX_CARDS /\
  (readMasterUID e ∉ cards e).

(** What the main loop maintains: the three conditions on a buffer of the
    right size, and no card enrolled while the master reads as empty. *)
Definition registry_inv (e : EEPROM) : Prop :=
  store_wf e /\
  NoDup (cards e) /\
  (readMasterUID e ∉ cards e) /\
  (isUIDEmpty (readMasterUID e) = true -> b2z (readCount e) = 0).

(** The worlds the device can be in: it first boots on flash whose count
    byte is out of bounds (erased flash reads 0xFF), then runs [loop], and
    may be reset at any time. *)
Inductive reachable : World -> Prop :=
| reach_first_boot (e : EEPROM) (out : list Event) :
    length e = Z.to_nat EEPROM_SIZE ->
    MAX_CARDS < b2z (readCount e) ->
    reachable (setup (mkWorld e false 0 out))
| reach_loop (p : Poll) (w : World) :
    reachable w -> reachable (loop p w)
| reach_reset (w : World) :
    reachable w -> reachable (setup w).

(** ** The text [printUIDHex] sends to the serial port

    [Serial.print(b, HEX)] runs [Print::printNumber] of the Arduino core:
    the digits of the number in the base, most significant first, letters
    in upper case, at least one digit.  [fuel] bounds the number of digits
    (the buffer of the core holds 32). *)
Fixpoint printNumber (fuel : nat) (n base : Z) (str : string) : string :=
  match fuel with
  | O => str
  | S fuel' =>
      let c := n mod base in
      let n := n / base in
      let str := String (ascii_of_nat (Z.to_nat (if c <? 10 then c + 48 else c + 65 - 10))) str in
      if n =? 0 then str else printNumber fuel' n base str
  end.

Definition Serial_print_HEX (b : byte) : string := printNumber 32 (b2z b) 16 "".

(** The line end of [Serial.println]. *)
Definition CRLF : string := String "013" (String "010" "").

Definition printUIDHex (uid : UID) : string :=
  let out :=
    for_loop 4 0
      (fun i out =>
         let out := if b2z (uid_at uid i) <? 0x10 then String.append out "0" else out in
         let out := String.append out (Serial_print_HEX (uid_at uid i)) in
         if i <? 3 then String.append out ":" else out) "" in
  String.append out CRLF.

(** The hexadecimal digit of a value below 16. *)
Definition hex_digit (c : Z) : ascii :=
  ascii_of_nat (Z.to_nat (if c <? 10 then c + 48 else c + 55)).

(** ** Vocabulary for the further properties *)

(** The frame [playAudio] sends for file number [n]. *)
Definition audio_event (n : Z) : Event := DfSerialWrite (df_frame x03 x00 (z2b n)).

(** The commands whose route asks for a relay pulse. *)
Definition relay_commands : list string :=
  [ "admin1"; "admin2"; "admin3"; "admin4"; "admin5"; "admin6"; "boss" ]
  ++ relay_only_commands.

Definition listed (name : string) (l : list string) : bool :=
  existsb (String.eqb name) l.

(** [loop] run once for each poll of [ps], in order. *)
Definition run (ps : list Poll) (w : World) : World :=
  foldl (fun w p => loop p w) w ps.

(** A byte that the emptiness test lets pass. *)
Definition blank (b : byte) : Prop := b = x00 \/ b = xff.

(** An address that [EEPROM.read] and [EEPROM.write] accept. *)
Definition in_range (e : EEPROM) (a : Z) : Prop := 0 <= a < Z.of_nat (length e).

#[local] Instance in_range_dec e a : Decision (in_range e a).
Proof. unfold in_range. apply _. Defined.

(** Every byte of the card area past the enrolled cards is 0xFF. *)
Definition tail_blank (e : EEPROM) : Prop :=
  forall a, cardAddr (b2z (readCount e)) <= a -> in_range e a -> EEPROM_read e a = xff.

(** * Properties *)

Ltac range_cases :=
  repeat match goal with
  | |- context [(?a <? ?b) || (?c <=? ?d)] =>
      destruct (Z.ltb_spec a b); destruct (Z.leb_spec c d); simpl
  end.


(** ** Bytes *)

Lemma b2z_range (b : byte) : 0 <= b2z b <= 255.
Proof. unfold b2z. pose proof (Byte.to_N_bounded b). lia. Qed.

Lemma z2b_b2z (b : byte) : z2b (b2z b) = b.
Proof.
  unfold z2b. pose proof (b2z_range b) as Hr.
  rewrite Z.mod_small by lia. unfold b2z.
  rewrite N2Z.id, Byte.of_to_N. reflexivity.
Qed.

Lemma b2z_z2b (z : Z) : b2z (z2b z) = z mod 256.
Proof.
  unfold z2b, b2z.
  pose proof (Z.mod_pos_bound z 256 ltac:(lia)) as Hm.
  destruct (Byte.of_N (Z.to_N (z mod 256))) as [b|] eqn:Hb.
  - apply Byte.to_of_N in Hb. rewrite Hb. lia.
  - apply Byte.of_N_None_iff in Hb. lia.
Qed.

Lemma b2z_inj (a b : byte) : b2z a = b2z b -> a = b.
Proof. intros H. rewrite <- (z2b_b2z a), <- (z2b_b2z b). congruence. Qed.

Lemma b2z_z2b_small (z : Z) : 0 <= z < 256 -> b2z (z2b z) = z.
Proof. intros. rewrite b2z_z2b. apply Z.mod_small. lia. Qed.

(** ** Reads and writes of the buffer *)

Lemma length_EEPROM_write a v (e : EEPROM) : length (EEPROM_write a v e) = length e.
Proof. unfold EEPROM_write. range_cases; try reflexivity. apply length_insert. Qed.

Lemma EEPROM_read_out (e : EEPROM) a : ~ in_range e a -> EEPROM_read e a = x00.
Proof. unfold in_range, EEPROM_read. intros. range_cases; try reflexivity. lia. Qed.

Lemma EEPROM_read_write (e : EEPROM) a v a' :
  EEPROM_read (EEPROM_write a v e) a' =
  if decide (a' = a /\ in_range e a) then v else EEPROM_read e a'.
Proof.
  unfold in_range. case_decide as Hc.
  - destruct Hc as [-> Hr]. unfold EEPROM_read.
    rewrite length_EEPROM_write. unfold EEPROM_write. range_cases; try lia.
    rewrite list_lookup_insert_eq by lia. reflexivity.
  - unfold EEPROM_read. rewrite length_EEPROM_write.
    unfold EEPROM_write. range_cases; try reflexivity.
    rewrite list_lookup_insert_ne by lia. reflexivity.
Qed.

Lemma EEPROM_ext (e1 e2 : EEPROM) :
  length e1 = length e2 ->
  (forall a, in_range e1 a -> EEPROM_read e1 a = EEPROM_read e2 a) ->
  e1 = e2.
Proof.
  intros Hl H. apply list_eq. intros i.
  destruct (decide (i < length e1)%nat) as [Hi|Hi].
  - specialize (H (Z.of_nat i)). unfold in_range, EEPROM_read in H.
    rewrite <- Hl, Nat2Z.id in H.
    destruct (Z.ltb_spec (Z.of_nat i) 0); [lia|].
    destruct (Z.leb_spec (Z.of_nat (length e1)) (Z.of_nat i)); [lia|].
    simpl in H.
    destruct (lookup_lt_is_Some_2 e1 i Hi) as [x Hx].
    destruct (lookup_lt_is_Some_2 e2 i ltac:(lia)) as [y Hy].
    rewrite Hx, Hy in *. simpl in H. f_equal. apply H. lia.
  - rewrite !lookup_ge_None_2 by lia. reflexivity.
Qed.

(** ** Identifiers *)

Lemma uid_at_fill f i : 0 <= i < 4 -> uid_at (uid_fill f) i = f i.
Proof.
  intros Hi. assert (i = 0 \/ i = 1 \/ i = 2 \/ i = 3) as Hc by lia.
  destruct Hc as [->|[->|[->| ->]]]; reflexivity.
Qed.

Lemma uid_ext (a b : UID) :
  (forall i, 0 <= i < 4 -> uid_at a i = uid_at b i) -> a = b.
Proof.
  intros H. destruct a as [a0 a1 a2 a3], b as [c0 c1 c2 c3].
  pose proof (H 0 ltac:(lia)) as H0. pose proof (H 1 ltac:(lia)) as H1.
  pose proof (H 2 ltac:(lia)) as H2. pose proof (H 3 ltac:(lia)) as H3.
  cbn in *. congruence.
Qed.

Lemma for_first_4 (p : Z -> bool) :
  for_first 4 0 p = None <->
  p 0 = false /\ p 1 = false /\ p 2 = false /\ p 3 = false.
Proof.
  change (for_first 4 0 p) with
    (if p 0 then Some 0 else if p 1 then Some 1 else
     if p 2 then Some 2 else if p 3 then Some 3 else None).
  destruct (p 0), (p 1), (p 2), (p 3); intuition congruence.
Qed.

Lemma left_early_iff (o : option Z) :
  (match o with Some _ => false | None => true end) = true <-> o = None.
Proof. destruct o; naive_solver. Qed.

Lemma byte_differs (x y : byte) : negb (b2z x =? b2z y) = false <-> x = y.
Proof.
  destruct (Z.eqb_spec (b2z x) (b2z y)) as [E|E]; cbn.
  - apply b2z_inj in E. naive_solver.
  - split; [discriminate|]. intros ->. elim E. reflexivity.
Qed.

Lemma compareUID_spec (a b : UID) : compareUID a b = true <-> a = b.
Proof.
  unfold compareUID. rewrite left_early_iff, for_first_4, !byte_differs.
  destruct a as [a0 a1 a2 a3], b as [c0 c1 c2 c3]. cbn.
  split; [intros (?&?&?&?); congruence|intros [=]; auto].
Qed.

Lemma compareUID_refl (a : UID) : compareUID a a = true.
Proof. apply compareUID_spec. reflexivity. Qed.

Lemma compareUID_false (a b : UID) : compareUID a b = false <-> a <> b.
Proof.
  rewrite <- compareUID_spec. destruct (compareUID a b); split; congruence.
Qed.

Lemma blank_test (b : byte) :
  negb (b2z b =? 0xFF) && negb (b2z b =? 0x00) = false <-> blank b.
Proof.
  unfold blank.
  destruct (Z.eqb_spec (b2z b) 0xFF) as [E|E]; cbn.
  - split; [|reflexivity]. intros _. right. apply b2z_inj. exact E.
  - destruct (Z.eqb_spec (b2z b) 0x00) as [E'|E']; cbn.
    + split; [|reflexivity]. intros _. left. apply b2z_inj. exact E'.
    + split; [discriminate|]. intros [->| ->]; [elim E'|elim E]; reflexivity.
Qed.

Lemma isUIDEmpty_spec (u : UID) :
  isUIDEmpty u = true <->
  blank (uid0 u) /\ blank (uid1 u) /\ blank (uid2 u) /\ blank (uid3 u).
Proof.
  unfold isUIDEmpty. rewrite left_early_iff, for_first_4, !blank_test.
  destruct u; reflexivity.
Qed.

(** ** Four-byte slots *)

Lemma for_loop_preserves {S : Type} (P : S -> Prop) (body : Z -> S -> S) :
  (forall i s, P s -> P (body i s)) ->
  forall n lo s, P s -> P (for_loop n lo body s).
Proof.
  intros Hb n. induction n as [|n IH]; intros lo s Hs; cbn; [exact Hs|].
  apply IH, Hb, Hs.
Qed.

Lemma length_fill4 addr (f : Z -> byte) (e : EEPROM) :
  length (for_loop 4 0 (fun b e => EEPROM_write (addr + b) (f b) e) e) = length e.
Proof.
  apply (for_loop_preserves (fun e' : EEPROM => length e' = length e)); [|reflexivity].
  intros i s Hs. rewrite length_EEPROM_write. exact Hs.
Qed.

Lemma read_fill4 addr (f : Z -> byte) (e : EEPROM) a :
  EEPROM_read (for_loop 4 0 (fun b e => EEPROM_write (addr + b) (f b) e) e) a =
  if decide (addr <= a < addr + 4 /\ in_range e a) then f (a - addr)
  else EEPROM_read e a.
Proof.
  cbn [for_loop]. rewrite !EEPROM_read_write.
  repeat case_decide; unfold in_range in *;
    rewrite ?length_EEPROM_write in *; try reflexivity; try lia;
    match goal with
    | H : a = _ /\ _ |- _ => destruct H as [-> _]; f_equal; lia
    end.
Qed.

Lemma length_writeUIDAt addr u (e : EEPROM) : length (writeUIDAt addr u e) = length e.
Proof. apply length_fill4. Qed.

Lemma read_writeUIDAt addr u (e : EEPROM) a :
  EEPROM_read (writeUIDAt addr u e) a =
  if decide (addr <= a < addr + 4 /\ in_range e a) then uid_at u (a - addr)
  else EEPROM_read e a.
Proof. apply read_fill4. Qed.

Lemma length_writeMasterUID u (e : EEPROM) : length (writeMasterUID u e) = length e.
Proof. apply (length_fill4 0 (uid_at u)). Qed.

Lemma read_writeMasterUID u (e : EEPROM) a :
  EEPROM_read (writeMasterUID u e) a =
  if decide (0 <= a < 4 /\ in_range e a) then uid_at u a else EEPROM_read e a.
Proof.
  change (writeMasterUID u e) with
    (for_loop 4 0 (fun b e => EEPROM_write (0 + b) (uid_at u b) e) e).
  rewrite read_fill4.
  repeat case_decide; first [reflexivity | f_equal; lia | exfalso; intuition lia].
Qed.

Lemma readUIDAt_ext (e1 e2 : EEPROM) a1 a2 :
  (forall b, 0 <= b < 4 -> EEPROM_read e1 (a1 + b) = EEPROM_read e2 (a2 + b)) ->
  readUIDAt e1 a1 = readUIDAt e2 a2.
Proof.
  intros H. unfold readUIDAt, uid_fill. f_equal; apply H; lia.
Qed.

Lemma readMasterUID_ext (e1 e2 : EEPROM) :
  (forall b, 0 <= b < 4 -> EEPROM_read e1 b = EEPROM_read e2 b) ->
  readMasterUID e1 = readMasterUID e2.
Proof.
  intros H. unfold readMasterUID, uid_fill. f_equal; apply H; lia.
Qed.

(** ** The shifting loop of [removeCardAtIndex] *)

Lemma length_shift n lo (e : EEPROM) : length (for_loop n lo shift_body e) = length e.
Proof.
  apply (for_loop_preserves (fun e' : EEPROM => length e' = length e)); [|reflexivity].
  intros i s Hs. unfold shift_body. rewrite length_writeUIDAt. exact Hs.
Qed.

Lemma read_shift_body i (e : EEPROM) a :
  0 <= i ->
  EEPROM_read (shift_body i e) a =
  if decide (cardAddr i <= a < cardAddr (i + 1)) then EEPROM_read e (a + 4)
  else EEPROM_read e a.
Proof.
  intros Hi. unfold shift_body. rewrite read_writeUIDAt. unfold cardAddr.
  repeat case_decide; try reflexivity; try lia.
  - unfold readUIDAt. rewrite uid_at_fill by lia. f_equal. lia.
  - assert (~ in_range e a) as Ha by (intros ?; apply H; split; [lia|assumption]).
    assert (~ in_range e (a + 4)) as Ha' by (unfold in_range in *; lia).
    rewrite !EEPROM_read_out by assumption. reflexivity.
Qed.

Lemma read_shift n : forall lo (e : EEPROM) a,
  0 <= lo ->
  EEPROM_read (for_loop n lo shift_body e) a =
  if decide (cardAddr lo <= a < cardAddr (lo + Z.of_nat n)) then EEPROM_read e (a + 4)
  else EEPROM_read e a.
Proof.
  induction n as [|n IH]; intros lo e a Hlo.
  - cbn. unfold cardAddr. case_decide; [lia|reflexivity].
  - cbn [for_loop]. rewrite IH by lia. rewrite !read_shift_body by lia.
    unfold cardAddr. repeat case_decide; try reflexivity; lia.
Qed.

Lemma removeCardAtIndex_unfold idx (e : EEPROM) :
  removeCardAtIndex idx e =
  let n := b2z (readCount e) in
  if n <=? b2z idx then e
  else writeCount (z2b (n - 1))
         (for_loop 4 0 (fun b e => EEPROM_write (cardAddr (n - 1) + b) ((fun _ => xff) b) e)
            (for_loop (Z.to_nat (n - 1 - b2z idx)) (b2z idx) shift_body e)).
Proof. reflexivity. Qed.

Lemma length_removeCardAtIndex idx (e : EEPROM) :
  length (removeCardAtIndex idx e) = length e.
Proof.
  rewrite removeCardAtIndex_unfold. cbv zeta.
  destruct (_ <=? _); [reflexivity|].
  unfold writeCount. rewrite length_EEPROM_write, length_fill4, length_shift.
  reflexivity.
Qed.

(** Byte by byte, what a successful removal leaves in the buffer. *)
Lemma read_removeCardAtIndex idx (e : EEPROM) a :
  b2z idx < b2z (readCount e) ->
  EEPROM_read (removeCardAtIndex idx e) a =
  if decide (a = 4 /\ in_range e 4) then z2b (b2z (readCount e) - 1)
  else if decide (cardAddr (b2z (readCount e) - 1) <= a
                  < cardAddr (b2z (readCount e) - 1) + 4 /\ in_range e a) then xff
  else if decide (cardAddr (b2z idx) <= a < cardAddr (b2z (readCount e) - 1))
       then EEPROM_read e (a + 4)
  else EEPROM_read e a.
Proof.
  intros Hlt. rewrite removeCardAtIndex_unfold. cbv zeta.
  destruct (Z.leb_spec (b2z (readCount e)) (b2z idx)) as [?|_]; [lia|].
  pose proof (b2z_range idx) as Hidx.
  unfold writeCount. rewrite EEPROM_read_write, read_fill4, read_shift by lia.
  replace (b2z idx + Z.of_nat (Z.to_nat (b2z (readCount e) - 1 - b2z idx)))
    with (b2z (readCount e) - 1) by lia.
  repeat case_decide; unfold in_range in *;
    rewrite ?length_EEPROM_write, ?length_fill4, ?length_shift in *;
    first [reflexivity | exfalso; unfold cardAddr in *; intuition lia].
Qed.

Lemma readCount_removeCardAtIndex idx (e : EEPROM) :
  b2z idx < b2z (readCount e) -> in_range e 4 ->
  b2z (readCount (removeCardAtIndex idx e)) = b2z (readCount e) - 1.
Proof.
  intros Hlt Hr. unfold readCount at 1. rewrite read_removeCardAtIndex by exact Hlt.
  rewrite decide_True by (split; [reflexivity|exact Hr]).
  pose proof (b2z_range idx). pose proof (b2z_range (readCount e)).
  apply b2z_z2b_small. lia.
Qed.

Lemma readMasterUID_removeCardAtIndex idx (e : EEPROM) :
  readMasterUID (removeCardAtIndex idx e) = readMasterUID e.
Proof.
  destruct (Z.leb_spec (b2z (readCount e)) (b2z idx)) as [Hge|Hlt].
  - rewrite removeCardAtIndex_unfold. cbv zeta.
    destruct (Z.leb_spec (b2z (readCount e)) (b2z idx)); [reflexivity|lia].
  - apply readMasterUID_ext. intros b Hb.
    rewrite read_removeCardAtIndex by exact Hlt.
    pose proof (b2z_range idx).
    unfold cardAddr. repeat case_decide; first [reflexivity | exfalso; intuition lia].
Qed.

(** Slot [j] after removing slot [idx]: the slots before [idx] stay, the
    later ones move down by one. *)
Lemma readUIDAt_removeCardAtIndex idx (e : EEPROM) j :
  b2z idx < b2z (readCount e) -> 0 <= j < b2z (readCount e) - 1 ->
  readUIDAt (removeCardAtIndex idx e) (cardAddr j) =
  readUIDAt e (cardAddr (if decide (j < b2z idx) then j else j + 1)).
Proof.
  intros Hlt Hj. apply readUIDAt_ext. intros b Hb.
  rewrite read_removeCardAtIndex by exact Hlt.
  unfold cardAddr.
  repeat case_decide; first [f_equal; lia | exfalso; intuition lia].
Qed.

Lemma readUIDAt_vacated idx (e : EEPROM) :
  b2z idx < b2z (readCount e) ->
  cardAddr (b2z (readCount e)) <= Z.of_nat (length e) ->
  readUIDAt (removeCardAtIndex idx e) (cardAddr (b2z (readCount e) - 1)) = sentinelFF.
Proof.
  intros Hlt Hlen. pose proof (b2z_range idx).
  unfold readUIDAt, uid_fill, sentinelFF.
  rewrite !read_removeCardAtIndex by exact Hlt.
  unfold cardAddr, in_range in *.
  f_equal; repeat case_decide; first [reflexivity | exfalso; intuition lia].
Qed.

(** ** The list of cards *)

Lemma length_cards (e : EEPROM) : length (cards e) = Z.to_nat (b2z (readCount e)).
Proof. unfold cards. rewrite length_fmap, length_seqZ. reflexivity. Qed.

Lemma cards_lookup (e : EEPROM) (j : nat) :
  cards e !! j =
  if decide (Z.of_nat j < b2z (readCount e))
  then Some (readUIDAt e (cardAddr (Z.of_nat j))) else None.
Proof.
  unfold cards. rewrite list_lookup_fmap. case_decide.
  - rewrite lookup_seqZ_lt by lia. reflexivity.
  - rewrite lookup_seqZ_ge by lia. reflexivity.
Qed.

Lemma cards_removeCardAtIndex idx (e : EEPROM) :
  b2z idx < b2z (readCount e) -> in_range e 4 ->
  cards (removeCardAtIndex idx e) = delete (Z.to_nat (b2z idx)) (cards e).
Proof.
  intros Hlt Hr. pose proof (b2z_range idx). apply list_eq. intros j.
  rewrite cards_lookup, readCount_removeCardAtIndex by assumption.
  destruct (decide (j < Z.to_nat (b2z idx))%nat) as [Hj|Hj].
  - rewrite list_lookup_delete_lt, cards_lookup by exact Hj.
    repeat case_decide; try lia; try reflexivity.
    rewrite readUIDAt_removeCardAtIndex by lia.
    rewrite decide_True by lia. reflexivity.
  - rewrite list_lookup_delete_ge, cards_lookup by lia.
    repeat case_decide; try lia; try reflexivity.
    rewrite readUIDAt_removeCardAtIndex by lia.
    rewrite decide_False by lia.
    replace (Z.of_nat j + 1) with (Z.of_nat (S j)) by lia. reflexivity.
Qed.

(** ** Searching the list *)

Lemma for_first_None n : forall lo p,
  for_first n lo p = None <-> (forall j, lo <= j < lo + Z.of_nat n -> p j = false).
Proof.
  induction n as [|n IH]; intros lo p; cbn [for_first].
  - split; [intros _ j Hj; lia|reflexivity].
  - destruct (p lo) eqn:Hp.
    + split; [discriminate|]. intros H. rewrite H in Hp by lia. discriminate.
    + rewrite IH. split; intros H j Hj.
      * destruct (decide (j = lo)) as [->|Hne]; [exact Hp|apply H; lia].
      * apply H. lia.
Qed.

Lemma for_first_Some n : forall lo p i,
  for_first n lo p = Some i <->
  lo <= i < lo + Z.of_nat n /\ p i = true /\ (forall j, lo <= j < i -> p j = false).
Proof.
  induction n as [|n IH]; intros lo p i; cbn [for_first].
  - split; [discriminate|lia].
  - destruct (p lo) eqn:Hp.
    + split.
      * intros [= <-]. repeat split; [lia|lia|exact Hp|intros j Hj; lia].
      * intros (Hr & Hi & Hlt). f_equal.
        destruct (decide (lo = i)) as [E|E]; [exact E|].
        rewrite Hlt in Hp by lia. discriminate.
    + rewrite IH. split; intros (Hr & Hi & Hlt).
      * repeat split; [lia|lia|exact Hi|].
        intros j Hj. destruct (decide (j = lo)) as [->|Hne]; [exact Hp|apply Hlt; lia].
      * assert (i <> lo) by congruence.
        repeat split; [lia|lia|exact Hi|intros j Hj; apply Hlt; lia].
Qed.

Lemma find_slot_None (e : EEPROM) (u : UID) : find_slot e u = None <-> u ∉ cards e.
Proof.
  unfold find_slot. rewrite for_first_None, list_elem_of_lookup. split.
  - intros H [j Hj]. rewrite cards_lookup in Hj. case_decide; [|discriminate].
    injection Hj as Hj. specialize (H (Z.of_nat j) ltac:(lia)).
    apply compareUID_false in H. congruence.
  - intros H j Hj. apply compareUID_false. intros ->. apply H.
    exists (Z.to_nat j). rewrite cards_lookup, decide_True by lia.
    rewrite Z2Nat.id by lia. reflexivity.
Qed.

Lemma find_slot_Some (e : EEPROM) (u : UID) i :
  find_slot e u = Some i <->
  0 <= i < b2z (readCount e) /\ cards e !! Z.to_nat i = Some u /\
  (forall j, (j < Z.to_nat i)%nat -> cards e !! j <> Some u).
Proof.
  pose proof (b2z_range (readCount e)) as Hn.
  unfold find_slot. rewrite for_first_Some, compareUID_spec. split.
  - intros (Hr & Hi & Hlt). repeat split; try lia.
    + rewrite cards_lookup, decide_True, Z2Nat.id by lia. congruence.
    + intros j Hj. rewrite cards_lookup, decide_True by lia. intros [= E].
      specialize (Hlt (Z.of_nat j) ltac:(lia)).
      apply compareUID_false in Hlt. congruence.
  - intros (Hr & Hi & Hlt). rewrite cards_lookup, decide_True, Z2Nat.id in Hi by lia.
    repeat split; try lia; [congruence|].
    intros j Hj. apply compareUID_false. intros E.
    apply (Hlt (Z.to_nat j)); [lia|].
    rewrite cards_lookup, decide_True, Z2Nat.id by lia. congruence.
Qed.

Lemma isAuthorized_find (e : EEPROM) (u : UID) :
  isAuthorized e u = match find_slot e u with Some _ => true | None => false end.
Proof. reflexivity. Qed.

Lemma isAuthorized_spec (e : EEPROM) (u : UID) : isAuthorized e u = true <-> u ∈ cards e.
Proof.
  rewrite isAuthorized_find. destruct (find_slot e u) as [i|] eqn:E.
  - apply find_slot_Some in E as (_ & Hi & _).
    split; [intros _|reflexivity]. apply list_elem_of_lookup. eauto.
  - apply find_slot_None in E. split; [discriminate|contradiction].
Qed.

Lemma isAuthorized_same_members (e1 e2 : EEPROM) :
  (forall x, x ∈ cards e1 <-> x ∈ cards e2) ->
  forall x, isAuthorized e1 x = isAuthorized e2 x.
Proof.
  intros H x. pose proof (isAuthorized_spec e1 x). pose proof (isAuthorized_spec e2 x).
  specialize (H x).
  destruct (isAuthorized e1 x), (isAuthorized e2 x); intuition congruence.
Qed.

(** ** Adding a card *)

Lemma addCard_full u w : MAX_CARDS <= b2z (readCount (eeprom w)) -> addCard u w = w.
Proof.
  intros H. unfold addCard.
  destruct (Z.leb_spec MAX_CARDS (b2z (readCount (eeprom w)))); [reflexivity|lia].
Qed.

Lemma eeprom_addCard u w :
  eeprom (addCard u w) =
  if MAX_CARDS <=? b2z (readCount (eeprom w)) then eeprom w
  else store_add u (eeprom w).
Proof. unfold addCard. destruct (_ <=? _); reflexivity. Qed.

Lemma regMode_addCard u w : regMode (addCard u w) = regMode w.
Proof. unfold addCard. destruct (_ <=? _); reflexivity. Qed.

Lemma regModeStarted_addCard u w : regModeStarted (addCard u w) = regModeStarted w.
Proof. unfold addCard. destruct (_ <=? _); reflexivity. Qed.

Lemma length_store_add u (e : EEPROM) : length (store_add u e) = length e.
Proof.
  unfold store_add, writeCount. rewrite length_EEPROM_write, length_writeUIDAt.
  reflexivity.
Qed.

Lemma read_store_add u (e : EEPROM) a :
  EEPROM_read (store_add u e) a =
  if decide (a = 4 /\ in_range e 4) then z2b (b2z (readCount e) + 1)
  else if decide (cardAddr (b2z (readCount e)) <= a < cardAddr (b2z (readCount e)) + 4
                  /\ in_range e a)
       then uid_at u (a - cardAddr (b2z (readCount e)))
  else EEPROM_read e a.
Proof.
  unfold store_add, writeCount. rewrite EEPROM_read_write, read_writeUIDAt.
  repeat case_decide; unfold in_range in *; rewrite ?length_writeUIDAt in *;
    first [reflexivity | exfalso; intuition lia].
Qed.

Lemma readCount_store_add u (e : EEPROM) :
  store_wf e -> b2z (readCount e) < MAX_CARDS ->
  b2z (readCount (store_add u e)) = b2z (readCount e) + 1.
Proof.
  intros [Hl _] Hn. pose proof (b2z_range (readCount e)).
  unfold readCount at 1. rewrite read_store_add.
  rewrite decide_True by (unfold in_range, EEPROM_SIZE in *; lia).
  apply b2z_z2b_small. unfold MAX_CARDS in *. lia.
Qed.

Lemma readMasterUID_store_add u (e : EEPROM) :
  readMasterUID (store_add u e) = readMasterUID e.
Proof.
  pose proof (b2z_range (readCount e)).
  apply readMasterUID_ext. intros b Hb. rewrite read_store_add.
  unfold cardAddr. repeat case_decide; first [reflexivity | exfalso; intuition lia].
Qed.

Lemma cards_store_add u (e : EEPROM) :
  store_wf e -> b2z (readCount e) < MAX_CARDS ->
  cards (store_add u e) = cards e ++ [u].
Proof.
  intros Hwf Hn. pose proof (b2z_range (readCount e)) as Hr.
  apply list_eq. intros j.
  rewrite cards_lookup, readCount_store_add by assumption.
  destruct Hwf as [Hl _]. unfold EEPROM_SIZE, MAX_CARDS in *.
  destruct (decide (Z.of_nat j < b2z (readCount e))) as [Hj|Hj].
  - rewrite lookup_app_l by (rewrite length_cards; lia).
    rewrite cards_lookup, !decide_True by lia. f_equal.
    apply readUIDAt_ext. intros b Hb. rewrite read_store_add.
    unfold cardAddr. repeat case_decide; first [reflexivity | exfalso; intuition lia].
  - rewrite lookup_app_r by (rewrite length_cards; lia). rewrite length_cards.
    case_decide as Hj'.
    + replace (j - Z.to_nat (b2z (readCount e)))%nat with 0%nat by lia. cbn. f_equal.
      replace (Z.of_nat j) with (b2z (readCount e)) by lia.
      apply uid_ext. intros i Hi. unfold readUIDAt. rewrite uid_at_fill by exact Hi.
      rewrite read_store_add. unfold cardAddr, in_range.
      repeat case_decide; first [f_equal; lia | exfalso; intuition lia].
    + destruct (j - Z.to_nat (b2z (readCount e)))%nat eqn:E; [lia|reflexivity].
Qed.

(** ** Toggling *)

Lemma eeprom_toggleAuthorizedCard u w :
  eeprom (toggleAuthorizedCard u w) =
  match find_slot (eeprom w) u with
  | Some i => removeCardAtIndex (z2b i) (eeprom w)
  | None => eeprom (addCard u w)
  end.
Proof.
  unfold toggleAuthorizedCard. fold (find_slot (eeprom w) u).
  destruct (find_slot (eeprom w) u); reflexivity.
Qed.

Lemma regMode_toggleAuthorizedCard u w : regMode (toggleAuthorizedCard u w) = regMode w.
Proof.
  unfold toggleAuthorizedCard. destruct (for_first _ _ _); [reflexivity|].
  apply regMode_addCard.
Qed.

Lemma regModeStarted_toggleAuthorizedCard u w :
  regModeStarted (toggleAuthorizedCard u w) = regModeStarted w.
Proof.
  unfold toggleAuthorizedCard. destruct (for_first _ _ _); [reflexivity|].
  apply regModeStarted_addCard.
Qed.

Lemma find_slot_byte (e : EEPROM) u i :
  find_slot e u = Some i -> b2z (z2b i) = i /\ i < b2z (readCount e).
Proof.
  intros H. apply find_slot_Some in H as (Hr & _).
  pose proof (b2z_range (readCount e)). split; [|lia].
  apply b2z_z2b_small. lia.
Qed.

Lemma eeprom_toggle u w :
  eeprom (toggleAuthorizedCard u w) = store_toggle u (eeprom w).
Proof.
  rewrite eeprom_toggleAuthorizedCard. unfold store_toggle.
  destruct (find_slot (eeprom w) u); [reflexivity|apply eeprom_addCard].
Qed.

Lemma delete_NoDup {A : Type} (l : list A) i u :
  NoDup l -> l !! i = Some u ->
  NoDup (delete i l) /\ (forall x, x ∈ delete i l <-> x ∈ l /\ x <> u).
Proof.
  intros Hnd Hi. rewrite delete_take_drop.
  rewrite <- (take_drop_middle l i u Hi) in Hnd.
  apply NoDup_app in Hnd as (Hn1 & Hdisj & Hn2).
  apply NoDup_cons in Hn2 as (Hu & Hn2). split.
  - apply NoDup_app. repeat split; [exact Hn1| |exact Hn2].
    intros x Hx Hx'. apply (Hdisj x Hx). right. exact Hx'.
  - intros x. rewrite <- (take_drop_middle l i u Hi) at 3.
    rewrite !elem_of_app, elem_of_cons. split.
    + intros [Hx|Hx]; (split; [tauto|]); intros ->;
        [apply (Hdisj u Hx); left|apply Hu; exact Hx].
    + tauto.
Qed.

Lemma cards_store_toggle u (e : EEPROM) :
  store_wf e ->
  cards (store_toggle u e) =
  match find_slot e u with
  | Some i => delete (Z.to_nat i) (cards e)
  | None => if MAX_CARDS <=? b2z (readCount e) then cards e else cards e ++ [u]
  end.
Proof.
  intros Hwf. unfold store_toggle. destruct (find_slot e u) as [i|] eqn:E.
  - destruct (find_slot_byte _ _ _ E) as [Hb Hlt].
    rewrite cards_removeCardAtIndex, Hb; [reflexivity|lia|].
    destruct Hwf as [Hl _]. unfold in_range, EEPROM_SIZE in *. lia.
  - destruct (Z.leb_spec MAX_CARDS (b2z (readCount e))); [reflexivity|].
    apply cards_store_add; assumption.
Qed.

Lemma store_wf_toggle u (e : EEPROM) : store_wf e -> store_wf (store_toggle u e).
Proof.
  intros Hwf. pose proof Hwf as [Hl Hn]. unfold store_toggle.
  destruct (find_slot e u) as [i|] eqn:E.
  - destruct (find_slot_byte _ _ _ E) as [Hb Hlt]. split.
    + rewrite length_removeCardAtIndex. exact Hl.
    + rewrite readCount_removeCardAtIndex; [lia|lia|].
      unfold in_range, EEPROM_SIZE in *. lia.
  - destruct (Z.leb_spec MAX_CARDS (b2z (readCount e))); [exact Hwf|]. split.
    + rewrite length_store_add. exact Hl.
    + rewrite readCount_store_add by assumption. lia.
Qed.

Lemma readMasterUID_store_toggle u (e : EEPROM) :
  readMasterUID (store_toggle u e) = readMasterUID e.
Proof.
  unfold store_toggle. destruct (find_slot e u).
  - apply readMasterUID_removeCardAtIndex.
  - destruct (_ <=? _); [reflexivity|apply readMasterUID_store_add].
Qed.

Lemma find_slot_appended u (e1 : EEPROM) (l : list UID) :
  cards e1 = l ++ [u] -> u ∉ l -> find_slot e1 u = Some (Z.of_nat (length l)).
Proof.
  intros Hc Hu. apply find_slot_Some.
  pose proof (length_cards e1) as Hlen. rewrite Hc, length_app in Hlen. cbn in Hlen.
  pose proof (b2z_range (readCount e1)).
  rewrite Nat2Z.id, Hc. repeat split; try lia.
  - rewrite lookup_app_r, Nat.sub_diag by lia. reflexivity.
  - intros j Hj. rewrite lookup_app_l by lia. intros Hl.
    apply Hu. apply list_elem_of_lookup. eauto.
Qed.

(** Two toggles of the same identifier, on the level of the card list. *)
Lemma cards_toggle_twice u (e : EEPROM) :
  store_wf e -> NoDup (cards e) ->
  cards (store_toggle u (store_toggle u e)) ≡ₚ cards e.
Proof.
  intros Hwf Hnd. pose proof (store_wf_toggle u e Hwf) as Hwf1.
  rewrite (cards_store_toggle u _ Hwf1).
  pose proof (cards_store_toggle u e Hwf) as Hc1.
  destruct (find_slot e u) as [i|] eqn:E.
  - (* present: removed, then appended *)
    pose proof (proj1 (find_slot_Some e u i) E) as (Hr & Hi & _).
    destruct (delete_NoDup _ _ _ Hnd Hi) as [_ Hmem].
    assert (find_slot (store_toggle u e) u = None) as ->.
    { apply find_slot_None. rewrite Hc1, Hmem. tauto. }
    assert (b2z (readCount (store_toggle u e)) = b2z (readCount e) - 1) as ->.
    { unfold store_toggle. rewrite E.
      destruct (find_slot_byte _ _ _ E) as [Hb Hlt].
      apply readCount_removeCardAtIndex; [lia|].
      destruct Hwf as [Hl _]. unfold in_range, EEPROM_SIZE in *. lia. }
    destruct Hwf as [_ Hn].
    destruct (Z.leb_spec MAX_CARDS (b2z (readCount e) - 1)); [lia|].
    rewrite Hc1. rewrite <- Permutation_cons_append.
    symmetry. apply delete_Permutation. exact Hi.
  - (* absent *)
    destruct (Z.leb_spec MAX_CARDS (b2z (readCount e))) as [Hfull|Hroom].
    + (* no room: both calls leave the store alone *)
      assert (store_toggle u e = e) as ->.
      { unfold store_toggle. rewrite E.
        destruct (Z.leb_spec MAX_CARDS (b2z (readCount e))); [reflexivity|lia]. }
      rewrite E. destruct (Z.leb_spec MAX_CARDS (b2z (readCount e))); [reflexivity|lia].
    + (* appended, then found in the last slot and removed *)
      apply find_slot_None in E.
      rewrite (find_slot_appended u _ _ Hc1 E), Nat2Z.id, Hc1.
      replace (cards e ++ [u]) with (cards e ++ u :: []) by reflexivity.
      rewrite delete_middle, app_nil_r. reflexivity.
Qed.

(** ** Start-up check of the store *)

Lemma length_fillFF n lo (e : EEPROM) :
  length (for_loop n lo (fun i e => EEPROM_write i xff e) e) = length e.
Proof.
  apply (for_loop_preserves (fun e' : EEPROM => length e' = length e)); [|reflexivity].
  intros i s Hs. rewrite length_EEPROM_write. exact Hs.
Qed.

Lemma read_fillFF n : forall lo (e : EEPROM) a,
  EEPROM_read (for_loop n lo (fun i e => EEPROM_write i xff e) e) a =
  if decide (lo <= a < lo + Z.of_nat n /\ in_range e a) then xff else EEPROM_read e a.
Proof.
  induction n as [|n IH]; intros lo e a.
  - cbn. case_decide; [lia|reflexivity].
  - cbn [for_loop]. rewrite IH, EEPROM_read_write.
    repeat case_decide; unfold in_range in *; rewrite ?length_EEPROM_write in *;
      first [reflexivity | exfalso; intuition lia].
Qed.

Lemma read_replicate_FF n a :
  in_range (replicate n xff) a -> EEPROM_read (replicate n xff) a = xff.
Proof.
  unfold in_range, EEPROM_read. rewrite length_replicate. intros Ha.
  range_cases; try lia. rewrite lookup_replicate_2 by lia. reflexivity.
Qed.

Lemma initEEPROM_keeps (e : EEPROM) : b2z (readCount e) <= MAX_CARDS -> initEEPROM e = e.
Proof.
  intros H. unfold initEEPROM. fold (readCount e).
  destruct (Z.ltb_spec MAX_CARDS (b2z (readCount e))); [lia|reflexivity].
Qed.

Lemma initEEPROM_wipes (e : EEPROM) :
  length e = Z.to_nat EEPROM_SIZE -> MAX_CARDS < b2z (readCount e) -> initEEPROM e = wiped.
Proof.
  intros Hl H. unfold initEEPROM. fold (readCount e).
  destruct (Z.ltb_spec MAX_CARDS (b2z (readCount e))); [|lia].
  replace (for_loop (Z.to_nat EEPROM_SIZE) 0 (fun i e => EEPROM_write i xff e) e)
    with (replicate (Z.to_nat EEPROM_SIZE) xff); [reflexivity|].
  symmetry. apply EEPROM_ext.
  - rewrite length_fillFF, length_replicate. exact Hl.
  - intros a Ha. rewrite read_fillFF. unfold in_range in *.
    rewrite length_fillFF in Ha.
    rewrite decide_True by lia. symmetry. apply read_replicate_FF.
    unfold in_range. rewrite length_replicate. lia.
Qed.

(** * The claims *)

(** C3: in a store of [n <= MAX_CARDS] cards, removing slot [idx < n]
    leaves the list of cards with its [idx]-th entry deleted and the others
    in their order: every slot before [idx] keeps its identifier, every
    slot [j > idx] moves to [j - 1]; the vacated last slot holds
    FF:FF:FF:FF and the count is [n - 1]. *)
Theorem removeCardAtIndex_shifts (e : EEPROM) (idx : byte) :
  store_wf e ->
  b2z idx < b2z (readCount e) ->
  let n := b2z (readCount e) in
  let e' := removeCardAtIndex idx e in
  cards e' = delete (Z.to_nat (b2z idx)) (cards e) /\
  (forall j, 0 <= j < b2z idx -> readUIDAt e' (cardAddr j) = readUIDAt e (cardAddr j)) /\
  (forall j, b2z idx < j < n -> readUIDAt e' (cardAddr (j - 1)) = readUIDAt e (cardAddr j)) /\
  readUIDAt e' (cardAddr (n - 1)) = sentinelFF /\
  b2z (readCount e') = n - 1.
Proof.
  intros [Hl Hn] Hlt n e'. subst n e'. pose proof (b2z_range idx) as Hidx.
  assert (in_range e 4) as H4 by (unfold in_range, EEPROM_SIZE in *; lia).
  split; [apply cards_removeCardAtIndex; assumption|].
  split; [|split; [|split]].
  - intros j Hj. rewrite readUIDAt_removeCardAtIndex by lia.
    rewrite decide_True by lia. reflexivity.
  - intros j Hj. rewrite readUIDAt_removeCardAtIndex by lia.
    rewrite decide_False by lia. f_equal. f_equal. lia.
  - apply readUIDAt_vacated; [exact Hlt|].
    unfold cardAddr, EEPROM_SIZE, MAX_CARDS in *. lia.
  - apply readCount_removeCardAtIndex; assumption.
Qed.

(** C4: on a store of at most [MAX_CARDS] cards without duplicates,
    toggling the same identifier twice in succession gives back the same
    members: the list of cards is a permutation of the one before, so
    [isAuthorized] answers the same for every identifier, and the count is
    the same. *)
Theorem toggle_twice_same_members (w : World) (uid : UID) :
  store_wf (eeprom w) ->
  NoDup (cards (eeprom w)) ->
  let w2 := toggleAuthorizedCard uid (toggleAuthorizedCard uid w) in
  cards (eeprom w2) ≡ₚ cards (eeprom w) /\
  (forall x, isAuthorized (eeprom w2) x = isAuthorized (eeprom w) x) /\
  readCount (eeprom w2) = readCount (eeprom w).
Proof.
  intros Hwf Hnd w2. subst w2. rewrite !eeprom_toggle.
  pose proof (cards_toggle_twice uid _ Hwf Hnd) as Hp.
  split; [exact Hp|]. split.
  - apply isAuthorized_same_members. intros x. rewrite Hp. reflexivity.
  - apply b2z_inj.
    pose proof (b2z_range (readCount (eeprom w))).
    pose proof (b2z_range (readCount (store_toggle uid (store_toggle uid (eeprom w))))).
    apply Permutation_length in Hp. rewrite !length_cards in Hp. lia.
Qed.

(** C7: with [MAX_CARDS] cards stored, [addCard] returns at once: the
    buffer (count, master, every slot), the registration state and the
    outputs are those from before the call. *)
Theorem addCard_full_no_mutation (w : World) (uid : UID) :
  b2z (readCount (eeprom w)) = MAX_CARDS ->
  addCard uid w = w.
Proof. intros H. apply addCard_full. lia. Qed.

(** C10: [removeCardAtIndex] with an index that is not below the count
    returns the buffer as it was. *)
Theorem removeCardAtIndex_out_of_range (e : EEPROM) (idx : byte) :
  b2z (readCount e) <= b2z idx ->
  removeCardAtIndex idx e = e.
Proof.
  intros H. unfold removeCardAtIndex.
  destruct (Z.leb_spec (b2z (readCount e)) (b2z idx)); [reflexivity|lia].
Qed.

Lemma store_wf_w_two : store_wf (eeprom w_two).
Proof. split; vm_compute; [reflexivity|discriminate]. Qed.

Lemma NoDup_cards_w_two : NoDup (cards (eeprom w_two)).
Proof.
  replace (cards (eeprom w_two)) with [cardA; cardB] by (vm_compute; reflexivity).
  apply NoDup_cons. split; [|apply NoDup_singleton].
  rewrite list_elem_of_singleton. discriminate.
Qed.

Lemma removeCardAtIndex_shifts_witness :
  cards (removeCardAtIndex x00 (eeprom w_two)) = [cardB] /\
  readUIDAt (removeCardAtIndex x00 (eeprom w_two)) (cardAddr 1) = sentinelFF /\
  b2z (readCount (removeCardAtIndex x00 (eeprom w_two))) = 1.
Proof.
  destruct (removeCardAtIndex_shifts (eeprom w_two) x00 store_wf_w_two)
    as (H1 & _ & _ & H4 & H5).
  - vm_compute. reflexivity.
  - split; [exact H1|]. split; [exact H4|exact H5].
Defined.

Lemma toggle_twice_same_members_witness :
  cards (eeprom (toggleAuthorizedCard cardA (toggleAuthorizedCard cardA w_two)))
    ≡ₚ cards (eeprom w_two) /\
  isAuthorized (eeprom (toggleAuthorizedCard cardA (toggleAuthorizedCard cardA w_two))) cardA
    = isAuthorized (eeprom w_two) cardA.
Proof.
  destruct (toggle_twice_same_members w_two cardA store_wf_w_two NoDup_cards_w_two)
    as (H1 & H2 & _).
  split; [exact H1|exact (H2 cardA)].
Defined.

Lemma addCard_full_no_mutation_witness :
  b2z (readCount (eeprom w_full)) = MAX_CARDS /\ addCard cardA w_full = w_full.
Proof.
  split; [vm_compute; reflexivity|].
  apply (addCard_full_no_mutation w_full cardA). vm_compute. reflexivity.
Defined.

Lemma removeCardAtIndex_out_of_range_witness :
  b2z (readCount (eeprom w_two)) <= b2z x02 /\
  removeCardAtIndex x02 (eeprom w_two) = eeprom w_two.
Proof.
  split; [vm_compute; discriminate|].
  apply (removeCardAtIndex_out_of_range (eeprom w_two) x02). vm_compute. discriminate.
Defined.

(** ** One iteration of the main loop *)

Lemma handleClient_frame r w :
  eeprom (world_of (handleClient r w)) = eeprom w /\
  regMode (world_of (handleClient r w)) = regMode w /\
  regModeStarted (world_of (handleClient r w)) = regModeStarted w.
Proof.
  unfold handleClient. destruct r as [uri|]; [|auto].
  destruct (find_route uri routes) as [[|name audioID [|]|]|]; auto.
Qed.

Lemma eeprom_setup w : eeprom (setup w) = initEEPROM (eeprom w).
Proof. reflexivity. Qed.

(** The buffer after one iteration, in terms of the buffer before. *)
Lemma eeprom_loop p w :
  eeprom (loop p w) =
  match handleClient (request p) w with
  | Restarted _ => initEEPROM (eeprom w)
  | Running _ =>
      match card p with
      | None => eeprom w
      | Some uid =>
          if isUIDEmpty (readMasterUID (eeprom w)) then writeMasterUID uid (eeprom w)
          else if compareUID uid (readMasterUID (eeprom w)) then eeprom w
          else if regMode w then store_toggle uid (eeprom w)
          else eeprom w
      end
  end.
Proof.
  unfold loop. destruct (handleClient_frame (request p) w) as (He & Hr & _).
  destruct (handleClient (request p) w) as [w'|w']; cbn in He, Hr.
  - destruct (card p) as [uid|]; [|exact He]. rewrite He.
    destruct (isUIDEmpty _); [cbn; rewrite He; reflexivity|].
    destruct (compareUID _ _).
    + unfold handleMasterScan. rewrite <- He. destruct (regMode w'); reflexivity.
    + rewrite Hr. destruct (regMode w).
      * match goal with |- eeprom (if ?c then _ else _) = _ => destruct c end;
          cbn; rewrite eeprom_toggle, He; reflexivity.
      * rewrite <- He.
        destruct (isAuthorized (eeprom w') uid);
          match goal with |- eeprom (if ?c then _ else _) = _ => destruct c end;
          reflexivity.
  - rewrite eeprom_setup, He. reflexivity.
Qed.

Lemma readCount_writeMasterUID u (e : EEPROM) :
  readCount (writeMasterUID u e) = readCount e.
Proof.
  unfold readCount. rewrite read_writeMasterUID.
  case_decide; [exfalso; intuition lia|reflexivity].
Qed.

Lemma cards_writeMasterUID u (e : EEPROM) : cards (writeMasterUID u e) = cards e.
Proof.
  unfold cards. rewrite readCount_writeMasterUID.
  apply list_fmap_ext. intros j i Hi. apply lookup_seqZ in Hi as [-> _].
  apply readUIDAt_ext. intros b Hb. rewrite read_writeMasterUID.
  unfold cardAddr. case_decide; [exfalso; intuition lia|reflexivity].
Qed.

Lemma readMasterUID_writeMasterUID u (e : EEPROM) :
  (4 <= length e)%nat -> readMasterUID (writeMasterUID u e) = u.
Proof.
  intros Hl. apply uid_ext. intros i Hi. unfold readMasterUID.
  rewrite uid_at_fill by exact Hi. rewrite read_writeMasterUID.
  rewrite decide_True by (unfold in_range; lia). reflexivity.
Qed.

Lemma cards_empty (e : EEPROM) : b2z (readCount e) = 0 -> cards e = [].
Proof. intros H. unfold cards. rewrite H. reflexivity. Qed.

Lemma registry_inv_wiped : registry_inv wiped.
Proof.
  assert (cards wiped = []) as Hc by (vm_compute; reflexivity).
  repeat split.
  - vm_compute. discriminate.
  - rewrite Hc. constructor.
  - rewrite Hc. apply not_elem_of_nil.
Qed.

Lemma registry_inv_toggle u (e : EEPROM) :
  registry_inv e -> isUIDEmpty (readMasterUID e) = false -> u <> readMasterUID e ->
  registry_inv (store_toggle u e).
Proof.
  intros (Hwf & Hnd & Hm & _) Hset Hne.
  split; [apply store_wf_toggle, Hwf|].
  rewrite readMasterUID_store_toggle, cards_store_toggle by exact Hwf.
  split; [|split; [|rewrite Hset; discriminate]].
  - destruct (find_slot e u) as [i|] eqn:E.
    + apply find_slot_Some in E as (_ & Hi & _).
      apply (delete_NoDup _ _ _ Hnd Hi).
    + destruct (_ <=? _); [exact Hnd|].
      apply find_slot_None in E. apply NoDup_app. repeat split.
      * exact Hnd.
      * intros x Hx Hx'. apply list_elem_of_singleton in Hx'. congruence.
      * apply NoDup_singleton.
  - destruct (find_slot e u) as [i|] eqn:E.
    + intros Hin. apply Hm. eapply list_elem_of_delete_inv, Hin.
    + destruct (_ <=? _); [exact Hm|].
      rewrite elem_of_app, list_elem_of_singleton. intros [?|?]; [tauto|congruence].
Qed.

Lemma registry_inv_loop p w :
  registry_inv (eeprom w) -> registry_inv (eeprom (loop p w)).
Proof.
  intros Hinv. pose proof Hinv as (Hwf & Hnd & Hm & Hempty).
  rewrite eeprom_loop. destruct (handleClient (request p) w).
  - destruct (card p) as [uid|]; [|exact Hinv].
    destruct (isUIDEmpty (readMasterUID (eeprom w))) eqn:Hset.
    + specialize (Hempty eq_refl). destruct Hwf as [Hl Hn].
      assert (cards (writeMasterUID uid (eeprom w)) = []) as Hc
        by (rewrite cards_writeMasterUID; apply cards_empty, Hempty).
      repeat split.
      * rewrite length_writeMasterUID. exact Hl.
      * rewrite readCount_writeMasterUID. exact Hn.
      * rewrite Hc. constructor.
      * rewrite Hc. apply not_elem_of_nil.
      * rewrite readCount_writeMasterUID. intros _. exact Hempty.
    + destruct (compareUID uid (readMasterUID (eeprom w))) eqn:Hcmp; [exact Hinv|].
      destruct (regMode w); [|exact Hinv].
      apply registry_inv_toggle; [exact Hinv|exact Hset|].
      apply compareUID_false, Hcmp.
  - rewrite initEEPROM_keeps; [exact Hinv|]. apply Hwf.
Qed.

Lemma registry_inv_store_ok (e : EEPROM) : registry_inv e -> store_ok e.
Proof. intros ((_ & Hn) & Hnd & Hm & _). repeat split; assumption. Qed.

Lemma reachable_registry_inv w : reachable w -> registry_inv (eeprom w).
Proof.
  induction 1 as [e out Hl Hn|p w _ IH|w _ IH].
  - rewrite eeprom_setup. cbn [eeprom]. rewrite initEEPROM_wipes by assumption.
    apply registry_inv_wiped.
  - apply registry_inv_loop, IH.
  - rewrite eeprom_setup, initEEPROM_keeps; [exact IH|]. apply IH.
Qed.

(** ** Routing of requests *)

Lemma find_route_None uri rs : uri ∉ (fst <$> rs) -> find_route uri rs = None.
Proof.
  induction rs as [|[path h] rs IH]; cbn; [reflexivity|].
  rewrite not_elem_of_cons. intros [Hne Hrest].
  destruct (String.eqb_spec uri path); [contradiction|]. apply IH, Hrest.
Qed.

Lemma route_paths :
  fst <$> routes = "/" :: (command_uri <$> command_vocabulary) ++ ["/reboot"].
Proof. reflexivity. Qed.

Lemma command_uri_inj a b : command_uri a = command_uri b -> a = b.
Proof. unfold command_uri. cbn. intros [= H]. exact H. Qed.

Lemma unknown_command_unrouted name :
  name ∉ command_vocabulary -> name <> "reboot" -> name <> "" ->
  find_route (command_uri name) routes = None.
Proof.
  intros Hv Hr He. apply find_route_None. rewrite route_paths.
  rewrite elem_of_cons, elem_of_app, list_elem_of_fmap, list_elem_of_singleton.
  intros [H|[(y & Hy & Hin)|H]].
  - apply He. apply (command_uri_inj name ""). exact H.
  - apply command_uri_inj in Hy. subst y. contradiction.
  - apply Hr. apply (command_uri_inj name "reboot"). exact H.
Qed.

Lemma not_listed (name : string) (l : list string) :
  forallb (fun x => negb (String.eqb name x)) l = true -> name ∉ l.
Proof.
  induction l as [|x l IH]; cbn; [intros _; apply not_elem_of_nil|].
  destruct (String.eqb_spec name x) as [|Hne]; cbn; [discriminate|].
  intros H. apply not_elem_of_cons. split; [exact Hne|exact (IH H)].
Qed.

Lemma reboot_not_in_vocabulary : "reboot" ∉ command_vocabulary.
Proof. apply not_listed. reflexivity. Qed.

(** ** Remaining claims *)

(** With registration armed, a master set and another card scanned, the
    buffer after the iteration is the toggled one, whatever the clock says. *)
Lemma loop_toggles_regardless_of_clock w uid t :
  regMode w = true ->
  isUIDEmpty (readMasterUID (eeprom w)) = false ->
  compareUID uid (readMasterUID (eeprom w)) = false ->
  eeprom (loop (scan uid t) w) = store_toggle uid (eeprom w).
Proof.
  intros Hreg Hset Hcmp. rewrite eeprom_loop. cbn. rewrite Hset, Hcmp, Hreg.
  reflexivity.
Qed.

(** C1: registration was armed at 1000 ms and nothing was scanned since.
    At 16001 ms, more than [REG_MODE_TIMEOUT_MS] later, the enrolled card A
    is scanned: [regMode] is still set when the scan is routed, so the card
    is toggled out of the registry with the fail beep and no relay pulse;
    only afterwards does the iteration clear [regMode]. *)
Theorem registration_timeout_checked_after_routing :
  regMode w_waited = true /\
  regModeStarted w_waited = 1000 /\
  REG_MODE_TIMEOUT_MS < u32 (16001 - regModeStarted w_waited) /\
  compareUID cardA (readMasterUID (eeprom w_waited)) = false /\
  isAuthorized (eeprom w_waited) cardA = true /\
  isAuthorized (eeprom (loop (scan cardA 16001) w_waited)) cardA = false /\
  cards (eeprom (loop (scan cardA 16001) w_waited)) = [cardB] /\
  output (loop (scan cardA 16001) w_waited) =
    output w_waited ++ [DfSerialWrite (df_frame x03 x00 (z2b AUDIO_BEEP_FAIL)); CardHalt] /\
  regMode (loop (scan cardA 16001) w_waited) = false.
Proof. vm_compute. repeat split; reflexivity. Qed.

(** C2, as the code has it: [writeMasterUID] stores the identifier it is
    given, whatever the master was; the main loop calls it only while the
    stored master reads as empty, so from a store whose master does not read
    as empty (and whose count is in bounds) one iteration of [loop], with
    any request and any card, leaves the master as it is. *)
Theorem master_guarded_by_router (w : World) (p : Poll) (u : UID) :
  length (eeprom w) = Z.to_nat EEPROM_SIZE ->
  isUIDEmpty (readMasterUID (eeprom w)) = false ->
  b2z (readCount (eeprom w)) <= MAX_CARDS ->
  readMasterUID (writeMasterUID u (eeprom w)) = u /\
  readMasterUID (eeprom (loop p w)) = readMasterUID (eeprom w).
Proof.
  intros Hl Hset Hn. split.
  - apply readMasterUID_writeMasterUID. unfold EEPROM_SIZE in Hl. lia.
  - rewrite eeprom_loop. destruct (handleClient (request p) w).
    + destruct (card p) as [uid|]; [|reflexivity]. rewrite Hset.
      destruct (compareUID _ _); [reflexivity|].
      destruct (regMode w); [|reflexivity]. apply readMasterUID_store_toggle.
    + rewrite initEEPROM_keeps by exact Hn. reflexivity.
Qed.

Lemma master_guarded_by_router_witness :
  isUIDEmpty (readMasterUID (eeprom w_two)) = false /\
  readMasterUID (eeprom (loop (scan cardA 50) w_two)) = readMasterUID (eeprom w_two).
Proof.
  split; [vm_compute; reflexivity|].
  apply (master_guarded_by_router w_two (scan cardA 50) cardB).
  - vm_compute. reflexivity.
  - vm_compute. reflexivity.
  - vm_compute. discriminate.
Defined.

(** C2 as stated fails: on a store whose master is card M, [writeMasterUID]
    with card A replaces it. *)
Lemma writeMasterUID_overwrites_master :
  isUIDEmpty (readMasterUID (eeprom w_master)) = false /\
  readMasterUID (eeprom w_master) = cardM /\
  readMasterUID (writeMasterUID cardA (eeprom w_master)) = cardA /\
  cardA <> cardM.
Proof. vm_compute. repeat split; [reflexivity..|discriminate]. Qed.

(** C5, as the code has it: an identifier reads as empty exactly when each
    of its four bytes is 0x00 or 0xFF, each byte on its own. *)
Theorem isUIDEmpty_bytewise (u : UID) :
  isUIDEmpty u = true <->
  (uid0 u = x00 \/ uid0 u = xff) /\ (uid1 u = x00 \/ uid1 u = xff) /\
  (uid2 u = x00 \/ uid2 u = xff) /\ (uid3 u = x00 \/ uid3 u = xff).
Proof. apply isUIDEmpty_spec. Qed.

(** C5 as stated fails: 00:FF:00:FF is neither sentinel, yet reads as empty. *)
Lemma mixed_pattern_reads_empty :
  cardMixed <> sentinel00 /\ cardMixed <> sentinelFF /\ isUIDEmpty cardMixed = true.
Proof. split; [discriminate|split; [discriminate|reflexivity]]. Qed.

(** C6: from a world the device can reach, whose store has no duplicate,
    at most [MAX_CARDS] cards and a master outside the list, one iteration
    of the main loop, whatever is scanned, gives a store with the same
    three properties. *)
Theorem loop_preserves_store_ok (w : World) (p : Poll) :
  reachable w ->
  store_ok (eeprom w) ->
  store_ok (eeprom (loop p w)).
Proof.
  intros Hr _. apply registry_inv_store_ok, reachable_registry_inv, reach_loop, Hr.
Qed.

Lemma reachable_w_two : reachable w_two.
Proof.
  do 4 apply reach_loop. apply reach_first_boot.
  - vm_compute. reflexivity.
  - vm_compute. reflexivity.
Qed.

Lemma store_ok_w_two : store_ok (eeprom w_two).
Proof. apply registry_inv_store_ok, reachable_registry_inv, reachable_w_two. Qed.

Lemma loop_preserves_store_ok_witness :
  store_ok (eeprom (loop (scan cardA 50) w_two)).
Proof.
  apply (loop_preserves_store_ok w_two (scan cardA 50) reachable_w_two store_ok_w_two).
Defined.

(** Reachability matters in C6: a buffer with an empty master and card A
    already enrolled meets the three conditions, and scanning card A makes
    it the master while it stays in the list. *)
Remark store_ok_alone_not_preserved :
  let w := mkWorld (store_add cardA wiped) false 0 [] in
  store_ok (eeprom w) /\
  readMasterUID (eeprom (loop (scan cardA 0) w)) ∈ cards (eeprom (loop (scan cardA 0) w)).
Proof.
  cbv zeta.
  assert (cards (store_add cardA wiped) = [cardA]) as Hc by (vm_compute; reflexivity).
  split.
  - cbn [eeprom]. unfold store_ok. rewrite Hc. repeat split.
    + apply NoDup_singleton.
    + vm_compute. discriminate.
    + rewrite list_elem_of_singleton. vm_compute. discriminate.
  - replace (readMasterUID (eeprom (loop (scan cardA 0)
               (mkWorld (store_add cardA wiped) false 0 [])))) with cardA
      by (vm_compute; reflexivity).
    replace (cards (eeprom (loop (scan cardA 0)
               (mkWorld (store_add cardA wiped) false 0 [])))) with [cardA]
      by (vm_compute; reflexivity).
    apply list_elem_of_singleton. reflexivity.
Qed.

Lemma wiped_is_empty :
  length wiped = Z.to_nat EEPROM_SIZE /\
  readMasterUID wiped = sentinelFF /\
  isUIDEmpty (readMasterUID wiped) = true /\
  b2z (readCount wiped) = 0 /\
  cards wiped = [].
Proof. vm_compute. repeat split; reflexivity. Qed.

(** C8: [setup] does nothing to the store but run [initEEPROM] on it.  If
    the count byte exceeds [MAX_CARDS], the whole buffer is overwritten:
    every byte 0xFF, the count 0, so that the master reads as unset and no
    card is enrolled.  If the count is at most [MAX_CARDS], the buffer is
    left as it is. *)
Theorem initEEPROM_wipes_corrupt_store (w : World) :
  length (eeprom w) = Z.to_nat EEPROM_SIZE ->
  eeprom (setup w) = initEEPROM (eeprom w) /\
  (MAX_CARDS < b2z (readCount (eeprom w)) ->
     initEEPROM (eeprom w) = <[4%nat := x00]> (replicate (Z.to_nat EEPROM_SIZE) xff) /\
     readMasterUID (initEEPROM (eeprom w)) = sentinelFF /\
     isUIDEmpty (readMasterUID (initEEPROM (eeprom w))) = true /\
     b2z (readCount (initEEPROM (eeprom w))) = 0 /\
     cards (initEEPROM (eeprom w)) = []) /\
  (b2z (readCount (eeprom w)) <= MAX_CARDS ->
     initEEPROM (eeprom w) = eeprom w).
Proof.
  intros Hl. split; [reflexivity|]. split.
  - intros Hn. rewrite (initEEPROM_wipes _ Hl Hn).
    split; [reflexivity|]. apply wiped_is_empty.
  - apply initEEPROM_keeps.
Qed.

Lemma initEEPROM_wipes_corrupt_store_witness :
  eeprom (setup (mkWorld (<[0%nat := xaa]> (replicate 512 xff)) false 0 [])) = wiped /\
  initEEPROM (eeprom w_two) = eeprom w_two.
Proof.
  split.
  - destruct (initEEPROM_wipes_corrupt_store
                (mkWorld (<[0%nat := xaa]> (replicate 512 xff)) false 0 []))
      as (Hs & Hw & _); [vm_compute; reflexivity|].
    rewrite Hs. apply Hw. vm_compute. reflexivity.
  - destruct (initEEPROM_wipes_corrupt_store w_two) as (_ & _ & Hk);
      [vm_compute; reflexivity|].
    apply Hk. vm_compute. discriminate.
Defined.

Lemma zero_not_a_cue : 0 ∉ audio_cues.
Proof. rewrite list_elem_of_In. vm_compute. intuition discriminate. Qed.

(** C9, as the code has it: each relay-only command calls [playAudio] with
    file number 0, which is none of the audio cues, pulses the relay and
    answers 200; a name that is neither in the vocabulary, nor [reboot],
    nor empty (the root page) only gets the 404 answer, with no audio
    command and no relay pulse. *)
Theorem dispatch_relay_only_and_unknown (w : World) (name : string) :
  (name ∈ relay_only_commands ->
     dispatch name w =
       Running (emit (ServerSend 200 "text/plain" "OK")
                  (emit (RelayPulse RELAY_ON_TIME_MS)
                     (emit (DfSerialWrite (df_frame x03 x00 (z2b 0))) w))) /\
     0 ∉ audio_cues) /\
  (name ∉ command_vocabulary -> name <> "reboot" -> name <> "" ->
     dispatch name w = Running (emit (ServerSend 404 "text/plain" "Not Found") w)).
Proof.
  split.
  - intros Hin. split; [|exact zero_not_a_cue].
    unfold relay_only_commands in Hin. rewrite list_elem_of_In in Hin. cbn in Hin.
    repeat (destruct Hin as [<-|Hin]; [reflexivity|]). contradiction.
  - intros Hv Hr He. unfold dispatch, handleClient.
    rewrite (unknown_command_unrouted name Hv Hr He). reflexivity.
Qed.

Lemma dispatch_relay_only_and_unknown_witness :
  output (world_of (dispatch "admin3_relay" w_fresh)) =
    output w_fresh ++ [ DfSerialWrite (df_frame x03 x00 x00);
                        RelayPulse 5000; ServerSend 200 "text/plain" "OK" ] /\
  output (world_of (dispatch "zzz" w_fresh)) =
    output w_fresh ++ [ ServerSend 404 "text/plain" "Not Found" ].
Proof.
  destruct (dispatch_relay_only_and_unknown w_fresh "admin3_relay") as [Hrelay _].
  destruct (dispatch_relay_only_and_unknown w_fresh "zzz") as [_ Hunknown].
  split.
  - destruct Hrelay as [-> _]; [|reflexivity].
    unfold relay_only_commands. rewrite list_elem_of_In. cbn. tauto.
  - rewrite Hunknown; [reflexivity| |discriminate|discriminate].
    apply not_listed. reflexivity.
Defined.

(** C9 as stated fails: [reboot] is not in the vocabulary, and the request
    is answered with 200 and a restart of the chip, not with 404. *)
Lemma reboot_is_routed :
  ("reboot" ∉ command_vocabulary) /\
  dispatch "reboot" w_fresh =
    Restarted (emit EspRestart (emit (ServerSend 200 "text/plain" "Rebooting...") w_fresh)) /\
  dispatch "reboot" w_fresh <> Running (handleNotFound w_fresh).
Proof.
  split; [exact reboot_not_in_vocabulary|]. split; [reflexivity|discriminate].
Qed.

(** * Further properties of the sketch *)

Lemma bool_eq_iff (a b : bool) : (a = true <-> b = true) -> a = b.
Proof. destruct a, b; intuition congruence. Qed.

Lemma in_range_4 (e : EEPROM) : store_wf e -> in_range e 4.
Proof. intros [Hl _]. unfold in_range, EEPROM_SIZE in *. lia. Qed.

(** ** The store *)

(** X1: [isAuthorized] answers true exactly when one of the slots below
    the count holds the identifier. *)
Theorem isAuthorized_iff_slot (e : EEPROM) (uid : UID) :
  isAuthorized e uid = true <->
  exists i, 0 <= i < b2z (readCount e) /\ readUIDAt e (cardAddr i) = uid.
Proof.
  rewrite isAuthorized_spec, list_elem_of_lookup. split.
  - intros [j Hj]. rewrite cards_lookup in Hj. case_decide; [|discriminate].
    exists (Z.of_nat j). split; [lia|congruence].
  - intros (i & Hi & Hu). exists (Z.to_nat i).
    rewrite cards_lookup, decide_True, Z2Nat.id by lia. congruence.
Qed.

(** X2: [compareUID] decides equality of identifiers, and does not depend
    on the order of its arguments. *)
Theorem compareUID_decides_equality (a b : UID) :
  (compareUID a b = true <-> a = b) /\ compareUID a b = compareUID b a.
Proof.
  split; [apply compareUID_spec|].
  apply bool_eq_iff. rewrite !compareUID_spec. split; congruence.
Qed.



Lemma output_addCard u w :
  output (addCard u w) =
  if MAX_CARDS <=? b2z (readCount (eeprom w)) then output w
  else output w ++ [audio_event AUDIO_REGISTER].
Proof. unfold addCard. destruct (_ <=? _); reflexivity. Qed.

Lemma isAuthorized_store_add u (e : EEPROM) x :
  store_wf e -> b2z (readCount e) < MAX_CARDS ->
  isAuthorized (store_add u e) x = isAuthorized e x || compareUID x u.
Proof.
  intros Hwf Hn. apply bool_eq_iff.
  rewrite orb_true_iff, !isAuthorized_spec, compareUID_spec.
  rewrite cards_store_add by assumption.
  rewrite elem_of_app, list_elem_of_singleton. reflexivity.
Qed.

(** X4: with room left, [addCard] appends the identifier after the cards
    already stored and raises the count by one; the master and the
    registration state stay, the register cue is played, and afterwards
    [isAuthorized] accepts the new identifier and whatever it accepted
    before. *)
Theorem addCard_appends (w : World) (uid : UID) :
  store_wf (eeprom w) ->
  b2z (readCount (eeprom w)) < MAX_CARDS ->
  cards (eeprom (addCard uid w)) = cards (eeprom w) ++ [uid] /\
  b2z (readCount (eeprom (addCard uid w))) = b2z (readCount (eeprom w)) + 1 /\
  readMasterUID (eeprom (addCard uid w)) = readMasterUID (eeprom w) /\
  (forall x, isAuthorized (eeprom (addCard uid w)) x
             = isAuthorized (eeprom w) x || compareUID x uid) /\
  regMode (addCard uid w) = regMode w /\
  regModeStarted (addCard uid w) = regModeStarted w /\
  output (addCard uid w) = output w ++ [audio_event AUDIO_REGISTER].
Proof.
  intros Hwf Hn.
  rewrite eeprom_addCard, output_addCard, regMode_addCard, regModeStarted_addCard.
  destruct (Z.leb_spec MAX_CARDS (b2z (readCount (eeprom w)))); [lia|].
  repeat split.
  - apply cards_store_add; assumption.
  - apply readCount_store_add; assumption.
  - apply readMasterUID_store_add.
  - intros x. apply isAuthorized_store_add; assumption.
Qed.

Lemma addCard_appends_witness :
  cards (eeprom (addCard cardMixed w_two)) = [cardA; cardB; cardMixed] /\
  isAuthorized (eeprom (addCard cardMixed w_two)) cardMixed = true.
Proof.
  destruct (addCard_appends w_two cardMixed store_wf_w_two) as (H1 & _ & _ & H4 & _).
  - vm_compute. reflexivity.
  - split; [exact H1|]. rewrite H4. rewrite compareUID_refl. apply orb_true_r.
Defined.

Lemma isAuthorized_removeCardAtIndex (e : EEPROM) (idx : byte) (x : UID) :
  store_wf e -> NoDup (cards e) -> b2z idx < b2z (readCount e) ->
  isAuthorized (removeCardAtIndex idx e) x =
  isAuthorized e x && negb (compareUID x (readUIDAt e (cardAddr (b2z idx)))).
Proof.
  intros Hwf Hnd Hlt. pose proof (b2z_range idx) as Hi.
  assert (cards e !! Z.to_nat (b2z idx) = Some (readUIDAt e (cardAddr (b2z idx)))) as Hl.
  { rewrite cards_lookup, decide_True, Z2Nat.id by lia. reflexivity. }
  destruct (delete_NoDup _ _ _ Hnd Hl) as [_ Hmem].
  apply bool_eq_iff.
  rewrite andb_true_iff, negb_true_iff, compareUID_false, !isAuthorized_spec.
  rewrite cards_removeCardAtIndex by (try apply in_range_4; assumption).
  apply Hmem.
Qed.

(** X5: removing a slot of a store without duplicates revokes the
    identifier of that slot and no other: afterwards [isAuthorized] accepts
    exactly what it accepted before, less that identifier. *)
Theorem removeCardAtIndex_revokes_one (e : EEPROM) (idx : byte) (x : UID) :
  store_wf e ->
  NoDup (cards e) ->
  b2z idx < b2z (readCount e) ->
  isAuthorized (removeCardAtIndex idx e) x =
  isAuthorized e x && negb (compareUID x (readUIDAt e (cardAddr (b2z idx)))).
Proof. apply isAuthorized_removeCardAtIndex. Qed.

Lemma removeCardAtIndex_revokes_one_witness :
  isAuthorized (removeCardAtIndex x00 (eeprom w_two)) cardA = false /\
  isAuthorized (removeCardAtIndex x00 (eeprom w_two)) cardB = true.
Proof.
  split.
  - rewrite (removeCardAtIndex_revokes_one (eeprom w_two) x00 cardA
               store_wf_w_two NoDup_cards_w_two); vm_compute; reflexivity.
  - rewrite (removeCardAtIndex_revokes_one (eeprom w_two) x00 cardB
               store_wf_w_two NoDup_cards_w_two); vm_compute; reflexivity.
Defined.

(** X6: adding a card and then removing the slot it went to gives back
    the list of cards, the count and the master from before. *)
Theorem addCard_then_remove_last (w : World) (uid : UID) :
  store_wf (eeprom w) ->
  b2z (readCount (eeprom w)) < MAX_CARDS ->
  let e' := removeCardAtIndex (readCount (eeprom w)) (eeprom (addCard uid w)) in
  cards e' = cards (eeprom w) /\
  readCount e' = readCount (eeprom w) /\
  readMasterUID e' = readMasterUID (eeprom w).
Proof.
  intros Hwf Hn e'. subst e'. rewrite eeprom_addCard.
  destruct (Z.leb_spec MAX_CARDS (b2z (readCount (eeprom w)))); [lia|].
  pose proof (readCount_store_add uid _ Hwf Hn) as Hc.
  pose proof (b2z_range (readCount (eeprom w))) as Hr.
  assert (in_range (store_add uid (eeprom w)) 4) as H4.
  { unfold in_range. rewrite length_store_add. apply in_range_4, Hwf. }
  split; [|split].
  - rewrite cards_removeCardAtIndex by (try exact H4; lia).
    rewrite cards_store_add by assumption.
    rewrite <- length_cards.
    replace (cards (eeprom w) ++ [uid]) with (cards (eeprom w) ++ uid :: []) by reflexivity.
    rewrite delete_middle, app_nil_r. reflexivity.
  - apply b2z_inj. rewrite readCount_removeCardAtIndex by (try exact H4; lia). lia.
  - rewrite readMasterUID_removeCardAtIndex. apply readMasterUID_store_add.
Qed.

Lemma addCard_then_remove_last_witness :
  cards (removeCardAtIndex (readCount (eeprom w_two)) (eeprom (addCard cardMixed w_two)))
  = cards (eeprom w_two).
Proof.
  destruct (addCard_then_remove_last w_two cardMixed store_wf_w_two) as [H _];
    [vm_compute; reflexivity|exact H].
Defined.

(** ** Toggling, case by case *)

Lemma output_toggleAuthorizedCard u w :
  output (toggleAuthorizedCard u w) =
  match find_slot (eeprom w) u with
  | Some _ => output w ++ [audio_event AUDIO_BEEP_FAIL]
  | None => output (addCard u w)
  end.
Proof.
  unfold toggleAuthorizedCard. fold (find_slot (eeprom w) u).
  destruct (find_slot (eeprom w) u); reflexivity.
Qed.

(** X7: what [toggleAuthorizedCard] does on a store without duplicates.
    An enrolled identifier is revoked, with the fail beep; one that is not
    enrolled is enrolled with the register cue if there is room, and if
    there is none the call changes nothing and plays nothing.  No other
    identifier gains or loses access, and the master and the registration
    state are not touched. *)
Theorem toggleAuthorizedCard_cases (w : World) (uid : UID) :
  store_wf (eeprom w) ->
  NoDup (cards (eeprom w)) ->
  let w' := toggleAuthorizedCard uid w in
  (if isAuthorized (eeprom w) uid then
     isAuthorized (eeprom w') uid = false /\
     b2z (readCount (eeprom w')) = b2z (readCount (eeprom w)) - 1 /\
     output w' = output w ++ [audio_event AUDIO_BEEP_FAIL]
   else if MAX_CARDS <=? b2z (readCount (eeprom w)) then
     w' = w
   else
     isAuthorized (eeprom w') uid = true /\
     b2z (readCount (eeprom w')) = b2z (readCount (eeprom w)) + 1 /\
     output w' = output w ++ [audio_event AUDIO_REGISTER]) /\
  (forall x, x <> uid -> isAuthorized (eeprom w') x = isAuthorized (eeprom w) x) /\
  readMasterUID (eeprom w') = readMasterUID (eeprom w) /\
  regMode w' = regMode w /\
  regModeStarted w' = regModeStarted w.
Proof.
  intros Hwf Hnd w'. subst w'.
  split; [|split; [|split; [|split]]].
  - rewrite isAuthorized_find, output_toggleAuthorizedCard, eeprom_toggle.
    unfold store_toggle.
    destruct (find_slot (eeprom w) uid) as [i|] eqn:E.
    + destruct (find_slot_byte _ _ _ E) as [Hb Hlt].
      apply find_slot_Some in E as (Hr & Hi & _).
      rewrite cards_lookup, decide_True, Z2Nat.id in Hi by lia. injection Hi as Hi.
      repeat split.
      * rewrite isAuthorized_removeCardAtIndex by (try assumption; lia).
        rewrite Hb, Hi, compareUID_refl. apply andb_false_r.
      * apply readCount_removeCardAtIndex; [lia|apply in_range_4, Hwf].
    + rewrite output_addCard.
      destruct (Z.leb_spec MAX_CARDS (b2z (readCount (eeprom w)))) as [Hfull|Hroom].
      * unfold toggleAuthorizedCard. fold (find_slot (eeprom w) uid). rewrite E.
        apply addCard_full, Hfull.
      * repeat split.
        -- rewrite isAuthorized_store_add by assumption.
           rewrite compareUID_refl. apply orb_true_r.
        -- apply readCount_store_add; assumption.
  - intros x Hx. rewrite eeprom_toggle. unfold store_toggle.
    destruct (find_slot (eeprom w) uid) as [i|] eqn:E.
    + destruct (find_slot_byte _ _ _ E) as [Hb Hlt].
      apply find_slot_Some in E as (Hr & Hi & _).
      rewrite cards_lookup, decide_True, Z2Nat.id in Hi by lia. injection Hi as Hi.
      rewrite isAuthorized_removeCardAtIndex by (try assumption; lia).
      rewrite Hb, Hi. apply compareUID_false in Hx. rewrite Hx. apply andb_true_r.
    + destruct (Z.leb_spec MAX_CARDS (b2z (readCount (eeprom w)))); [reflexivity|].
      rewrite isAuthorized_store_add by assumption.
      apply compareUID_false in Hx. rewrite Hx. apply orb_false_r.
  - rewrite eeprom_toggle. apply readMasterUID_store_toggle.
  - apply regMode_toggleAuthorizedCard.
  - apply regModeStarted_toggleAuthorizedCard.
Qed.

Lemma toggleAuthorizedCard_cases_witness :
  isAuthorized (eeprom (toggleAuthorizedCard cardA w_two)) cardA = false /\
  isAuthorized (eeprom (toggleAuthorizedCard cardA w_two)) cardB = true.
Proof.
  destruct (toggleAuthorizedCard_cases w_two cardA store_wf_w_two NoDup_cards_w_two)
    as (H1 & H2 & _).
  split.
  - replace (isAuthorized (eeprom w_two) cardA) with true in H1
      by (vm_compute; reflexivity).
    apply H1.
  - rewrite H2 by discriminate. vm_compute. reflexivity.
Defined.

(** ** The scan branches of the main loop *)

Lemma loop_scan u t w :
  loop (scan u t) w =
  if isUIDEmpty (readMasterUID (eeprom w)) then
    playAudio AUDIO_MASTER (set_eeprom (writeMasterUID u) w)
  else if compareUID u (readMasterUID (eeprom w)) then
    emit CardHalt (handleMasterScan t w)
  else
    let w1 :=
      if regMode w then toggleAuthorizedCard u w
      else if isAuthorized (eeprom w) u then activateRelay (playAudio AUDIO_BEEP_OK w)
      else playAudio AUDIO_BEEP_FAIL w in
    let w2 := emit CardHalt w1 in
    if regMode w2 && (REG_MODE_TIMEOUT_MS <? u32 (t - regModeStarted w2))
    then set_regMode false w2 else w2.
Proof. reflexivity. Qed.

(** X8: while the stored master reads as empty, a scanned card becomes
    the master: its four bytes are stored, the master cue is played, and
    the enrolled cards, the count and the registration state stay as they
    are. *)
Theorem first_scan_becomes_master (w : World) (uid : UID) (t : Z) :
  isUIDEmpty (readMasterUID (eeprom w)) = true ->
  (4 <= length (eeprom w))%nat ->
  let w' := loop (scan uid t) w in
  readMasterUID (eeprom w') = uid /\
  cards (eeprom w') = cards (eeprom w) /\
  readCount (eeprom w') = readCount (eeprom w) /\
  regMode w' = regMode w /\
  regModeStarted w' = regModeStarted w /\
  output w' = output w ++ [audio_event AUDIO_MASTER].
Proof.
  intros Hempty Hl w'. subst w'. rewrite loop_scan, Hempty. cbn.
  repeat split.
  - apply readMasterUID_writeMasterUID, Hl.
  - apply cards_writeMasterUID.
  - apply readCount_writeMasterUID.
Qed.

Lemma first_scan_becomes_master_witness :
  readMasterUID (eeprom (loop (scan cardM 0) w_fresh)) = cardM.
Proof.
  destruct (first_scan_becomes_master w_fresh cardM 0) as [H _].
  - vm_compute. reflexivity.
  - vm_compute. lia.
  - exact H.
Defined.

Lemma loop_scan_master (w : World) (t : Z) :
  isUIDEmpty (readMasterUID (eeprom w)) = false ->
  let w' := loop (scan (readMasterUID (eeprom w)) t) w in
  eeprom w' = eeprom w /\
  regMode w' = negb (regMode w) /\
  regModeStarted w' = (if regMode w then regModeStarted w else t) /\
  output w' = output w ++
    [audio_event (if regMode w then AUDIO_BEEP_OK else AUDIO_MASTER); CardHalt].
Proof.
  intros Hset w'. subst w'. rewrite loop_scan, Hset, compareUID_refl.
  unfold handleMasterScan. destruct (regMode w) eqn:Hreg; cbn;
    rewrite <- app_assoc; repeat split; reflexivity.
Qed.

(** X9: scanning the master card flips registration mode and does nothing
    to the store.  Arming records the clock and plays the master cue;
    cancelling keeps the recorded start and plays the OK beep. *)
Theorem master_scan_flips_registration (w : World) (t : Z) :
  isUIDEmpty (readMasterUID (eeprom w)) = false ->
  let w' := loop (scan (readMasterUID (eeprom w)) t) w in
  eeprom w' = eeprom w /\
  regMode w' = negb (regMode w) /\
  regModeStarted w' = (if regMode w then regModeStarted w else t) /\
  output w' = output w ++
    [audio_event (if regMode w then AUDIO_BEEP_OK else AUDIO_MASTER); CardHalt].
Proof. apply loop_scan_master. Qed.

Lemma master_scan_flips_registration_witness :
  regMode (loop (scan cardM 10) w_master) = true /\
  regModeStarted (loop (scan cardM 10) w_master) = 10.
Proof.
  destruct (master_scan_flips_registration w_master 10) as (_ & H2 & H3 & _).
  - vm_compute. reflexivity.
  - split.
    + change (readMasterUID (eeprom w_master)) with cardM in H2.
      rewrite H2. vm_compute. reflexivity.
    + change (readMasterUID (eeprom w_master)) with cardM in H3.
      rewrite H3. vm_compute. reflexivity.
Defined.

Lemma loop_scan_idle (w : World) (uid : UID) (t : Z) :
  isUIDEmpty (readMasterUID (eeprom w)) = false ->
  compareUID uid (readMasterUID (eeprom w)) = false ->
  regMode w = false ->
  loop (scan uid t) w =
  mkWorld (eeprom w) false (regModeStarted w)
    (output w ++
       (if isAuthorized (eeprom w) uid
        then [audio_event AUDIO_BEEP_OK; RelayPulse RELAY_ON_TIME_MS; CardHalt]
        else [audio_event AUDIO_BEEP_FAIL; CardHalt])).
Proof.
  intros Hset Hcmp Hreg. rewrite loop_scan, Hset, Hcmp, Hreg.
  destruct w as [e r s o]. cbn in *. subst r.
  destruct (isAuthorized e uid);
    unfold activateRelay, playAudio, sendDFCommand, emit; cbn;
    rewrite <- !app_assoc; reflexivity.
Qed.

(** X10: outside registration mode, a card other than the master is only
    checked: the store and the registration state stay as they are; an
    enrolled card gets the OK beep and a relay pulse, any other card the
    fail beep and no pulse. *)
Theorem access_check (w : World) (uid : UID) (t : Z) :
  isUIDEmpty (readMasterUID (eeprom w)) = false ->
  compareUID uid (readMasterUID (eeprom w)) = false ->
  regMode w = false ->
  loop (scan uid t) w =
  mkWorld (eeprom w) false (regModeStarted w)
    (output w ++
       (if isAuthorized (eeprom w) uid
        then [audio_event AUDIO_BEEP_OK; RelayPulse RELAY_ON_TIME_MS; CardHalt]
        else [audio_event AUDIO_BEEP_FAIL; CardHalt])).
Proof. apply loop_scan_idle. Qed.

Lemma access_check_witness :
  output (loop (scan cardA 50) (loop (scan cardM 40) w_two)) =
  output (loop (scan cardM 40) w_two)
    ++ [audio_event AUDIO_BEEP_OK; RelayPulse RELAY_ON_TIME_MS; CardHalt].
Proof.
  rewrite (access_check (loop (scan cardM 40) w_two) cardA 50);
    vm_compute; reflexivity.
Defined.

Ltac no_relay :=
  let ms := fresh "ms" in let H := fresh "H" in
  intros [ms H];
  repeat (rewrite ?elem_of_app, ?elem_of_cons, ?elem_of_nil in H);
  unfold audio_event in H; intuition discriminate.

Lemma output_toggle_events u w :
  exists evs, output (toggleAuthorizedCard u w) = output w ++ evs /\
              ~ (exists ms, RelayPulse ms ∈ evs).
Proof.
  rewrite output_toggleAuthorizedCard, output_addCard.
  destruct (find_slot (eeprom w) u).
  - eexists. split; [reflexivity|no_relay].
  - destruct (_ <=? _).
    + exists []. split; [symmetry; apply app_nil_r|no_relay].
    + eexists. split; [reflexivity|no_relay].
Qed.

(** X11: a scan makes the relay pulse in one case only: a master is set,
    the card is not the master, registration mode is off and the card is
    enrolled.  Becoming master, arming or cancelling registration, and
    enrolling or revoking a card never pulse the relay. *)
Theorem relay_pulse_iff_granted (w : World) (uid : UID) (t : Z) :
  exists evs,
    output (loop (scan uid t) w) = output w ++ evs /\
    ((exists ms, RelayPulse ms ∈ evs) <->
     isUIDEmpty (readMasterUID (eeprom w)) = false /\
     compareUID uid (readMasterUID (eeprom w)) = false /\
     regMode w = false /\
     isAuthorized (eeprom w) uid = true).
Proof.
  destruct (isUIDEmpty (readMasterUID (eeprom w))) eqn:Hset.
  { rewrite loop_scan, Hset. eexists. split; [reflexivity|].
    split; [no_relay|intros (? & _); discriminate]. }
  destruct (compareUID uid (readMasterUID (eeprom w))) eqn:Hcmp.
  { rewrite loop_scan, Hset, Hcmp. unfold handleMasterScan.
    destruct (regMode w); cbn; rewrite <- app_assoc;
      (eexists; split; [reflexivity|]);
      (split; [no_relay|intros (_ & ? & _); discriminate]). }
  destruct (regMode w) eqn:Hreg.
  - rewrite loop_scan, Hset, Hcmp, Hreg. cbv zeta.
    destruct (output_toggle_events uid w) as (evs & Hevs & Hno).
    exists (evs ++ [CardHalt]). split.
    + match goal with |- output (if ?c then _ else _) = _ => destruct c end;
        cbn; rewrite Hevs, <- app_assoc; reflexivity.
    + split; [|intros (_ & _ & ? & _); discriminate].
      intros [ms H]. apply elem_of_app in H as [H|H].
      * elim Hno. eauto.
      * apply list_elem_of_singleton in H. discriminate.
  - rewrite loop_scan_idle by assumption. cbn.
    destruct (isAuthorized (eeprom w) uid); (eexists; split; [reflexivity|]).
    + split; [auto|]. intros _. exists RELAY_ON_TIME_MS.
      apply elem_of_cons. right. apply elem_of_cons. left. reflexivity.
    + split; [no_relay|intros (_ & _ & _ & ?); discriminate].
Qed.

Lemma u32_elapsed (s t : Z) :
  0 <= s < 2 ^ 32 -> 0 <= t < 2 ^ 32 ->
  u32 (t - s) = if s <=? t then t - s else t - s + 2 ^ 32.
Proof.
  intros Hs Ht. unfold u32. destruct (Z.leb_spec s t).
  - apply Z.mod_small. lia.
  - rewrite <- (Z.mod_add (t - s) 1) by lia. apply Z.mod_small. lia.
Qed.

(** X12: after a card other than the master is handled in registration
    mode, registration stays armed exactly when at most
    [REG_MODE_TIMEOUT_MS] have passed since it was armed, the time being
    counted across a wrap of the 32-bit clock; the recorded start is kept. *)
Theorem registration_expiry_after_scan (w : World) (uid : UID) (t : Z) :
  isUIDEmpty (readMasterUID (eeprom w)) = false ->
  compareUID uid (readMasterUID (eeprom w)) = false ->
  regMode w = true ->
  0 <= regModeStarted w < 2 ^ 32 ->
  0 <= t < 2 ^ 32 ->
  let elapsed := if regModeStarted w <=? t then t - regModeStarted w
                 else t - regModeStarted w + 2 ^ 32 in
  regMode (loop (scan uid t) w) = (elapsed <=? REG_MODE_TIMEOUT_MS) /\
  regModeStarted (loop (scan uid t) w) = regModeStarted w.
Proof.
  intros Hset Hcmp Hreg Hs Ht elapsed. subst elapsed.
  rewrite <- u32_elapsed by assumption.
  rewrite loop_scan, Hset, Hcmp, Hreg. cbv zeta.
  change (regMode (emit CardHalt (toggleAuthorizedCard uid w)))
    with (regMode (toggleAuthorizedCard uid w)).
  change (regModeStarted (emit CardHalt (toggleAuthorizedCard uid w)))
    with (regModeStarted (toggleAuthorizedCard uid w)).
  rewrite regMode_toggleAuthorizedCard, regModeStarted_toggleAuthorizedCard, Hreg.
  cbn [andb].
  destruct (Z.ltb_spec REG_MODE_TIMEOUT_MS (u32 (t - regModeStarted w)));
    destruct (Z.leb_spec (u32 (t - regModeStarted w)) REG_MODE_TIMEOUT_MS);
    try lia; cbn;
    rewrite ?regMode_toggleAuthorizedCard, ?regModeStarted_toggleAuthorizedCard;
    auto.
Qed.

Ltac concrete_bounds := vm_compute; split; [discriminate|reflexivity].

Lemma registration_expiry_after_scan_witness :
  regMode (loop (scan cardA 16000) w_rearmed) = true /\
  regMode (loop (scan cardA 16001) w_rearmed) = false /\
  regMode (loop (scan cardA 500) (loop (scan cardM 4294967000) (loop (scan cardM 40) w_two)))
  = true.
Proof.
  split; [|split].
  - destruct (registration_expiry_after_scan w_rearmed cardA 16000) as [H _];
      [vm_compute; reflexivity|vm_compute; reflexivity|vm_compute; reflexivity
      |concrete_bounds|concrete_bounds|].
    rewrite H. vm_compute. reflexivity.
  - destruct (registration_expiry_after_scan w_rearmed cardA 16001) as [H _];
      [vm_compute; reflexivity|vm_compute; reflexivity|vm_compute; reflexivity
      |concrete_bounds|concrete_bounds|].
    rewrite H. vm_compute. reflexivity.
  - destruct (registration_expiry_after_scan
                (loop (scan cardM 4294967000) (loop (scan cardM 40) w_two)) cardA 500)
      as [H _];
      [vm_compute; reflexivity|vm_compute; reflexivity|vm_compute; reflexivity
      |concrete_bounds|concrete_bounds|].
    rewrite H. vm_compute. reflexivity.
Defined.

(** ** Requests and card-less iterations *)

Lemma find_route_reboot uri : find_route uri routes = Some HReboot -> uri = "/reboot".
Proof.
  unfold routes. cbn [find_route].
  repeat match goal with
  | |- context [String.eqb uri ?s] =>
      destruct (String.eqb_spec uri s) as [->|?];
        [intros H; first [discriminate H | reflexivity]|]
  end.
  discriminate.
Qed.

Lemma handleClient_running r w :
  r <> Some "/reboot" -> handleClient r w = Running (world_of (handleClient r w)).
Proof.
  intros Hr. unfold handleClient. destruct r as [uri|]; [|reflexivity].
  destruct (find_route uri routes) as [[|name audioID relay|]|] eqn:E; try reflexivity.
  apply find_route_reboot in E. congruence.
Qed.

Lemma loop_cardless p w :
  card p = None -> request p <> Some "/reboot" ->
  eeprom (loop p w) = eeprom w /\
  regMode (loop p w) = regMode w /\
  regModeStarted (loop p w) = regModeStarted w.
Proof.
  intros Hc Hr. unfold loop. rewrite (handleClient_running _ w Hr), Hc.
  apply handleClient_frame.
Qed.

(** X13: iterations without a card, with any request other than the
    reboot, never end registration mode, however many they are and
    whatever the clock reads: the registration state and the store come
    out as they went in. *)
Theorem registration_outlasts_cardless_polls (ps : list Poll) (w : World) :
  Forall (fun p => card p = None /\ request p <> Some "/reboot") ps ->
  regMode (run ps w) = regMode w /\
  regModeStarted (run ps w) = regModeStarted w /\
  eeprom (run ps w) = eeprom w.
Proof.
  intros H. revert w. induction H as [|p ps [Hc Hr] _ IH]; intros w; [auto|].
  change (run (p :: ps) w) with (run ps (loop p w)).
  destruct (loop_cardless p w Hc Hr) as (He & Hm & Hs).
  destruct (IH (loop p w)) as (IHm & IHs & IHe).
  rewrite IHm, IHs, IHe. auto.
Qed.

Lemma registration_outlasts_cardless_polls_witness :
  regMode (run [idle 2000; mkPoll (Some "/boss") None 500000; idle 4000000000] w_rearmed)
  = true.
Proof.
  destruct (registration_outlasts_cardless_polls
              [idle 2000; mkPoll (Some "/boss") None 500000; idle 4000000000] w_rearmed)
    as [H _].
  - repeat constructor; discriminate.
  - rewrite H. vm_compute. reflexivity.
Defined.

(** X14: an iteration without a card leaves the EEPROM buffer as it is,
    whatever the request, the reboot included, as long as the stored count
    is in bounds: no request enrolls, revokes or replaces anything. *)
Theorem requests_leave_registry (p : Poll) (w : World) :
  card p = None ->
  b2z (readCount (eeprom w)) <= MAX_CARDS ->
  eeprom (loop p w) = eeprom w.
Proof.
  intros Hc Hn. rewrite eeprom_loop, Hc.
  destruct (handleClient (request p) w); [reflexivity|].
  apply initEEPROM_keeps, Hn.
Qed.

Lemma requests_leave_registry_witness :
  eeprom (loop (mkPoll (Some "/reboot") None 77) w_two) = eeprom w_two.
Proof.
  apply (requests_leave_registry (mkPoll (Some "/reboot") None 77) w_two).
  - reflexivity.
  - vm_compute. discriminate.
Defined.

Lemma listed_elem_of name l : listed name l = true <-> name ∈ l.
Proof.
  unfold listed. induction l as [|x l IH]; cbn.
  - rewrite elem_of_nil. split; [discriminate|contradiction].
  - rewrite orb_true_iff, elem_of_cons, IH.
    destruct (String.eqb_spec name x); intuition congruence.
Qed.

Lemma cue_elem_of a : existsb (Z.eqb a) audio_cues = true -> a ∈ audio_cues.
Proof.
  intros H. apply existsb_exists in H as (x & Hx & E).
  apply Z.eqb_eq in E. subst x. apply list_elem_of_In, Hx.
Qed.

(** X15: every command of the vocabulary is routed to [handleCommand],
    which answers 200 OK.  The relay is asked for exactly by admin1 to
    admin6, boss and the relay-only commands; the audio file number is 0
    exactly for the relay-only commands, and otherwise one of the cues the
    sketch defines. *)
Theorem command_table (w : World) (name : string) :
  name ∈ command_vocabulary ->
  exists label audioID,
    dispatch name w =
      Running (handleCommand label audioID (listed name relay_commands) w) /\
    (audioID =? 0) = listed name relay_only_commands /\
    (listed name relay_only_commands = false -> audioID ∈ audio_cues).
Proof.
  intros Hin. unfold command_vocabulary in Hin. rewrite list_elem_of_In in Hin.
  cbn in Hin.
  repeat (destruct Hin as [<-|Hin];
    [do 2 eexists; split; [reflexivity|]; split; [reflexivity|];
     first [discriminate | intros _; apply cue_elem_of; reflexivity]|]).
  contradiction.
Qed.

Lemma command_table_witness :
  exists label audioID,
    dispatch "admin3_clockin" w_fresh = Running (handleCommand label audioID false w_fresh) /\
    (audioID =? 0) = false.
Proof.
  destruct (command_table w_fresh "admin3_clockin") as (label & audioID & H1 & H2 & _).
  - apply listed_elem_of. reflexivity.
  - exists label, audioID. split; [exact H1|exact H2].
Defined.

(** X16: whatever the buffer, [initEEPROM] leaves a count within bounds,
    and running it again changes nothing more. *)
Theorem initEEPROM_idempotent (e : EEPROM) :
  b2z (readCount (initEEPROM e)) <= MAX_CARDS /\
  initEEPROM (initEEPROM e) = initEEPROM e.
Proof.
  assert (b2z (readCount (initEEPROM e)) <= MAX_CARDS) as H.
  { unfold initEEPROM. fold (readCount e).
    destruct (Z.ltb_spec MAX_CARDS (b2z (readCount e))) as [Hbig|Hok]; [|exact Hok].
    unfold readCount at 1. rewrite EEPROM_read_write. case_decide as Hc.
    - vm_compute. discriminate.
    - rewrite EEPROM_read_out; [vm_compute; discriminate|].
      intros Hr. apply Hc. split; [reflexivity|exact Hr]. }
  split; [exact H|]. apply initEEPROM_keeps, H.
Qed.

Lemma land_255 (x : Z) : Z.land x 0xFF = x mod 256.
Proof. change 0xFF with (Z.ones 8). rewrite Z.land_ones by lia. reflexivity. Qed.

(** X17: the frame [sendDFCommand] writes to the audio module: start byte
    0x7E, version 0xFF, length 6, the command, no feedback, the two
    parameters, a two-byte checksum and the end byte 0xEF; the checksum,
    read as a 16-bit number, makes the sum of the six bytes before it
    vanish modulo 2^16. *)
Theorem df_frame_checksum (command param1 param2 : byte) :
  exists hi lo,
    df_frame command param1 param2 =
      [x7e; xff; x06; command; x00; param1; param2; hi; lo; xef] /\
    (0xFF + 0x06 + b2z command + 0x00 + b2z param1 + b2z param2
     + (256 * b2z hi + b2z lo)) mod 2 ^ 16 = 0.
Proof.
  do 2 eexists. split; [reflexivity|].
  rewrite !b2z_z2b, !land_255, Z.shiftr_div_pow2 by lia.
  rewrite !Z.mod_mod by lia.
  set (S := 0xFF + 0x06 + b2z command + 0x00 + b2z param1 + b2z param2).
  replace (256 * ((- S / 2 ^ 8) mod 256) + (- S) mod 256) with ((- S) mod 2 ^ 16).
  - rewrite Zplus_mod_idemp_r. replace (S + - S) with 0 by lia. reflexivity.
  - change (2 ^ 16) with (256 * 256). rewrite Z.rem_mul_r by lia.
    change (2 ^ 8) with 256. lia.
Qed.

(** ** What holds in every world the device can reach *)

Lemma readMasterUID_loop (p : Poll) (w : World) :
  isUIDEmpty (readMasterUID (eeprom w)) = false ->
  b2z (readCount (eeprom w)) <= MAX_CARDS ->
  readMasterUID (eeprom (loop p w)) = readMasterUID (eeprom w).
Proof.
  intros Hset Hn. rewrite eeprom_loop. destruct (handleClient (request p) w).
  - destruct (card p) as [uid|]; [|reflexivity]. rewrite Hset.
    destruct (compareUID _ _); [reflexivity|].
    destruct (regMode w); [|reflexivity]. apply readMasterUID_store_toggle.
  - rewrite initEEPROM_keeps by exact Hn. reflexivity.
Qed.

Lemma regMode_loop_unset (p : Poll) (w : World) :
  isUIDEmpty (readMasterUID (eeprom w)) = true ->
  regMode w = false -> regMode (loop p w) = false.
Proof.
  intros Hempty Hreg. unfold loop.
  destruct (handleClient_frame (request p) w) as (He & Hr & _).
  destruct (handleClient (request p) w) as [w'|w']; cbn in He, Hr; [|reflexivity].
  destruct (card p) as [uid|]; [|congruence].
  rewrite He, Hempty. cbn. congruence.
Qed.

Lemma armed_only_with_master_loop (p : Poll) (w : World) :
  b2z (readCount (eeprom w)) <= MAX_CARDS ->
  (regMode w = true -> isUIDEmpty (readMasterUID (eeprom w)) = false) ->
  regMode (loop p w) = true -> isUIDEmpty (readMasterUID (eeprom (loop p w))) = false.
Proof.
  intros Hn Hinv Harmed.
  destruct (isUIDEmpty (readMasterUID (eeprom w))) eqn:Hset.
  - destruct (regMode w) eqn:Hreg; [specialize (Hinv eq_refl); discriminate|].
    rewrite (regMode_loop_unset p w Hset Hreg) in Harmed. discriminate.
  - rewrite readMasterUID_loop by assumption. exact Hset.
Qed.

Lemma reachable_armed_only_with_master w :
  reachable w -> regMode w = true -> isUIDEmpty (readMasterUID (eeprom w)) = false.
Proof.
  induction 1 as [e out Hl Hn|p w Hr IH|w _ IH]; try discriminate.
  apply armed_only_with_master_loop; [|exact IH].
  apply (reachable_registry_inv w Hr).
Qed.

(** X18: in every world the device can reach, the buffer has
    [EEPROM_SIZE] bytes, and as long as the stored master reads as empty
    no card is enrolled and registration mode is off. *)
Theorem nothing_enrolled_without_master (w : World) :
  reachable w ->
  length (eeprom w) = Z.to_nat EEPROM_SIZE /\
  (isUIDEmpty (readMasterUID (eeprom w)) = true ->
     cards (eeprom w) = [] /\
     (forall x, isAuthorized (eeprom w) x = false) /\
     regMode w = false).
Proof.
  intros Hr. destruct (reachable_registry_inv w Hr) as ((Hl & _) & _ & _ & He).
  split; [exact Hl|]. intros Hempty.
  assert (cards (eeprom w) = []) as Hc by (apply cards_empty, He, Hempty).
  split; [exact Hc|]. split.
  - intros x. destruct (isAuthorized (eeprom w) x) eqn:E; [|reflexivity].
    apply isAuthorized_spec in E. rewrite Hc in E. apply elem_of_nil in E. contradiction.
  - destruct (regMode w) eqn:Hreg; [|reflexivity].
    rewrite (reachable_armed_only_with_master w Hr Hreg) in Hempty. discriminate.
Qed.

Lemma reachable_w_fresh : reachable w_fresh.
Proof. apply reach_first_boot; vm_compute; reflexivity. Qed.

Lemma nothing_enrolled_without_master_witness :
  length (eeprom w_fresh) = Z.to_nat EEPROM_SIZE.
Proof. exact (proj1 (nothing_enrolled_without_master w_fresh reachable_w_fresh)). Defined.

Lemma reachable_run ps : forall w, reachable w -> reachable (run ps w).
Proof.
  induction ps as [|p ps IH]; intros w Hr; [exact Hr|].
  apply (IH (loop p w)), reach_loop, Hr.
Qed.

(** X19: once the stored master does not read as empty, no sequence of
    loop iterations changes it, whatever cards are scanned, whatever
    requests arrive (the reboot included) and whatever the clock reads. *)
Theorem master_is_permanent (ps : list Poll) (w : World) :
  reachable w ->
  isUIDEmpty (readMasterUID (eeprom w)) = false ->
  readMasterUID (eeprom (run ps w)) = readMasterUID (eeprom w).
Proof.
  revert w. induction ps as [|p ps IH]; intros w Hr Hset; [reflexivity|].
  change (run (p :: ps) w) with (run ps (loop p w)).
  assert (readMasterUID (eeprom (loop p w)) = readMasterUID (eeprom w)) as Hm.
  { apply readMasterUID_loop; [exact Hset|]. apply (reachable_registry_inv w Hr). }
  rewrite IH; [exact Hm|apply reach_loop, Hr|rewrite Hm; exact Hset].
Qed.

Lemma master_is_permanent_witness :
  readMasterUID (eeprom (run [scan cardA 50; mkPoll (Some "/reboot") (Some cardB) 60;
                              scan cardMixed 70] w_two)) = cardM.
Proof.
  rewrite (master_is_permanent _ w_two reachable_w_two); vm_compute; reflexivity.
Defined.

(** ** The bytes past the enrolled cards *)

Lemma wiped_as_write : wiped = EEPROM_write 4 x00 (replicate (Z.to_nat EEPROM_SIZE) xff).
Proof. reflexivity. Qed.

Lemma tail_blank_wiped : tail_blank wiped.
Proof.
  intros a Ha Hr. pose proof (b2z_range (readCount wiped)).
  rewrite wiped_as_write in *. unfold in_range in Hr.
  rewrite length_EEPROM_write in Hr.
  rewrite EEPROM_read_write. unfold cardAddr in Ha.
  case_decide; [exfalso; intuition lia|]. apply read_replicate_FF. exact Hr.
Qed.

Lemma tail_blank_writeMasterUID u (e : EEPROM) :
  tail_blank e -> tail_blank (writeMasterUID u e).
Proof.
  intros Htail a Ha Hr. rewrite readCount_writeMasterUID in Ha.
  pose proof (b2z_range (readCount e)).
  unfold in_range in Hr. rewrite length_writeMasterUID in Hr.
  rewrite read_writeMasterUID. unfold cardAddr in *.
  case_decide; [exfalso; intuition lia|]. apply Htail; [unfold cardAddr; lia|exact Hr].
Qed.

Lemma tail_blank_store_toggle u (e : EEPROM) :
  store_wf e -> tail_blank e -> tail_blank (store_toggle u e).
Proof.
  intros Hwf Htail. pose proof (in_range_4 e Hwf) as H4.
  pose proof (b2z_range (readCount e)) as Hn. unfold store_toggle.
  destruct (find_slot e u) as [i|] eqn:E.
  - destruct (find_slot_byte _ _ _ E) as [Hb Hlt].
    pose proof (b2z_range (z2b i)) as Hi. rewrite Hb in Hi.
    intros a Ha Hr. rewrite readCount_removeCardAtIndex in Ha by (try assumption; lia).
    unfold in_range in Hr. rewrite length_removeCardAtIndex in Hr.
    rewrite read_removeCardAtIndex by lia.
    rewrite decide_False by (unfold cardAddr in *; lia).
    destruct (decide (a < cardAddr (b2z (readCount e) - 1) + 4)) as [Hin|Hout].
    + rewrite decide_True by (split; [lia|exact Hr]). reflexivity.
    + rewrite !decide_False by lia.
      apply Htail; [unfold cardAddr in *; lia|exact Hr].
  - destruct (Z.leb_spec MAX_CARDS (b2z (readCount e))); [exact Htail|].
    intros a Ha Hr. rewrite readCount_store_add in Ha by assumption.
    unfold in_range in Hr. rewrite length_store_add in Hr.
    rewrite read_store_add.
    rewrite !decide_False by (unfold cardAddr in *; lia).
    apply Htail; [unfold cardAddr in *; lia|exact Hr].
Qed.

Lemma tail_blank_loop p w :
  store_wf (eeprom w) -> tail_blank (eeprom w) -> tail_blank (eeprom (loop p w)).
Proof.
  intros Hwf H. rewrite eeprom_loop. destruct (handleClient (request p) w).
  - destruct (card p) as [uid|]; [|exact H].
    destruct (isUIDEmpty _); [apply tail_blank_writeMasterUID, H|].
    destruct (compareUID _ _); [exact H|].
    destruct (regMode w); [|exact H]. apply tail_blank_store_toggle; assumption.
  - rewrite initEEPROM_keeps; [exact H|apply Hwf].
Qed.

Lemma reachable_tail_blank w : reachable w -> tail_blank (eeprom w).
Proof.
  induction 1 as [e out Hl Hn|p w Hr IH|w Hr IH].
  - rewrite eeprom_setup. cbn [eeprom]. rewrite initEEPROM_wipes by assumption.
    apply tail_blank_wiped.
  - apply tail_blank_loop; [|exact IH]. apply (reachable_registry_inv w Hr).
  - rewrite eeprom_setup, initEEPROM_keeps; [exact IH|].
    apply (reachable_registry_inv w Hr).
Qed.

(** X20: in every world the device can reach, each byte of the buffer
    past the last enrolled card is 0xFF, so every slot from the count on
    reads FF:FF:FF:FF: a revoked identifier does not linger in the EEPROM. *)
Theorem unused_slots_are_blank (w : World) :
  reachable w ->
  (forall a, cardAddr (b2z (readCount (eeprom w))) <= a < EEPROM_SIZE ->
             EEPROM_read (eeprom w) a = xff) /\
  (forall i, b2z (readCount (eeprom w)) <= i < MAX_CARDS ->
             readUIDAt (eeprom w) (cardAddr i) = sentinelFF).
Proof.
  intros Hr. pose proof (reachable_tail_blank w Hr) as Ht.
  destruct (reachable_registry_inv w Hr) as ((Hl & _) & _).
  pose proof (b2z_range (readCount (eeprom w))) as Hn.
  assert (forall a, cardAddr (b2z (readCount (eeprom w))) <= a < EEPROM_SIZE ->
                    EEPROM_read (eeprom w) a = xff) as Hbytes.
  { intros a Ha. apply Ht; [lia|].
    unfold in_range, cardAddr, EEPROM_SIZE in *. lia. }
  split; [exact Hbytes|].
  intros i Hi. unfold readUIDAt, uid_fill, sentinelFF.
  f_equal; apply Hbytes; unfold cardAddr, EEPROM_SIZE, MAX_CARDS in *; lia.
Qed.

Lemma unused_slots_are_blank_witness :
  readUIDAt (eeprom (loop (scan cardA 50) w_two)) (cardAddr 1) = sentinelFF.
Proof.
  destruct (unused_slots_are_blank (loop (scan cardA 50) w_two)) as [_ H].
  - apply reach_loop, reachable_w_two.
  - apply H. vm_compute. split; [discriminate|reflexivity].
Defined.

(** X21: in a world the device can reach, toggling an identifier that is
    not enrolled twice in succession restores the EEPROM byte for byte. *)
Theorem toggle_twice_restores_buffer (w : World) (uid : UID) :
  reachable w ->
  isAuthorized (eeprom w) uid = false ->
  eeprom (toggleAuthorizedCard uid (toggleAuthorizedCard uid w)) = eeprom w.
Proof.
  intros Hr Hno. rewrite !eeprom_toggle.
  destruct (reachable_registry_inv w Hr) as (Hwf & _).
  pose proof (reachable_tail_blank w Hr) as Ht.
  pose proof (in_range_4 _ Hwf) as H4.
  pose proof (b2z_range (readCount (eeprom w))) as Hn.
  assert (find_slot (eeprom w) uid = None) as E.
  { rewrite isAuthorized_find in Hno. destruct (find_slot _ _); [discriminate|reflexivity]. }
  unfold store_toggle at 2. rewrite E.
  destruct (Z.leb_spec MAX_CARDS (b2z (readCount (eeprom w)))) as [Hfull|Hroom].
  { unfold store_toggle. rewrite E.
    destruct (Z.leb_spec MAX_CARDS (b2z (readCount (eeprom w)))); [reflexivity|lia]. }
  pose proof (cards_store_add uid _ Hwf Hroom) as Hc.
  pose proof (readCount_store_add uid _ Hwf Hroom) as Hcnt.
  apply find_slot_None in E.
  unfold store_toggle. rewrite (find_slot_appended uid _ _ Hc E), length_cards.
  rewrite Z2Nat.id by lia. rewrite z2b_b2z.
  apply EEPROM_ext.
  - rewrite length_removeCardAtIndex. apply length_store_add.
  - intros a Ha. unfold in_range in Ha.
    rewrite length_removeCardAtIndex, length_store_add in Ha.
    rewrite read_removeCardAtIndex by lia. rewrite Hcnt.
    replace (b2z (readCount (eeprom w)) + 1 - 1) with (b2z (readCount (eeprom w))) by lia.
    rewrite z2b_b2z.
    repeat case_decide.
    + destruct H as [-> _]. reflexivity.
    + symmetry. apply Ht; [lia|exact Ha].
    + lia.
    + rewrite read_store_add.
      repeat case_decide; try reflexivity.
      * exfalso. apply H. split; [tauto|]. unfold in_range. rewrite length_store_add. exact H4.
      * exfalso. apply H0. split; [tauto|]. unfold in_range. rewrite length_store_add. exact Ha.
Qed.

Lemma toggle_twice_restores_buffer_witness :
  eeprom (toggleAuthorizedCard cardMixed (toggleAuthorizedCard cardMixed w_two)) = eeprom w_two.
Proof.
  apply (toggle_twice_restores_buffer w_two cardMixed reachable_w_two).
  vm_compute. reflexivity.
Defined.

(** ** Serial text *)

Lemma append_assoc (a b c : string) :
  String.append (String.append a b) c = String.append a (String.append b c).
Proof.
  induction a as [|x a IH]; [reflexivity|].
  change (String x (String.append (String.append a b) c)
          = String x (String.append a (String.append b c))).
  rewrite IH. reflexivity.
Qed.


Lemma hex_pair (b : byte) :
  String.append (if b2z b <? 0x10 then "0" else "") (Serial_print_HEX b) =
  String (hex_digit (b2z b / 16)) (String (hex_digit (b2z b mod 16)) "").
Proof. destruct b; reflexivity. Qed.

Lemma append_pair (x y : ascii) (rest : string) :
  String.append (String x (String y "")) rest = String x (String y rest).
Proof. reflexivity. Qed.

Lemma hex_step (out : string) (b : byte) (rest : string) :
  String.append
    (String.append (if b2z b <? 0x10 then String.append out "0" else out)
       (Serial_print_HEX b)) rest =
  String.append out
    (String (hex_digit (b2z b / 16)) (String (hex_digit (b2z b mod 16)) rest)).
Proof.
  pose proof (hex_pair b) as Hp. destruct (b2z b <? 0x10).
  - rewrite (append_assoc out "0"), (append_assoc out).
    rewrite Hp, append_pair. reflexivity.
  - change (String.append "" (Serial_print_HEX b)) with (Serial_print_HEX b) in Hp.
    rewrite append_assoc, Hp, append_pair. reflexivity.
Qed.

Lemma printUIDHex_text (a b c d : byte) :
  printUIDHex (mkUID a b c d) =
  String (hex_digit (b2z a / 16)) (String (hex_digit (b2z a mod 16)) (String ":"
  (String (hex_digit (b2z b / 16)) (String (hex_digit (b2z b mod 16)) (String ":"
  (String (hex_digit (b2z c / 16)) (String (hex_digit (b2z c mod 16)) (String ":"
  (String (hex_digit (b2z d / 16)) (String (hex_digit (b2z d mod 16)) CRLF)))))))))).
Proof.
  unfold printUIDHex. cbn [for_loop].
  change (0 + 1) with 1. change (1 + 1) with 2. change (2 + 1) with 3.
  change (uid_at (mkUID a b c d) 0) with a. change (uid_at (mkUID a b c d) 1) with b.
  change (uid_at (mkUID a b c d) 2) with c. change (uid_at (mkUID a b c d) 3) with d.
  change (0 <? 3) with true. change (1 <? 3) with true.
  change (2 <? 3) with true. change (3 <? 3) with false. cbv iota.
  rewrite hex_step, append_assoc. rewrite hex_step, append_assoc.
  rewrite hex_step, append_assoc. rewrite hex_step. reflexivity.
Qed.

Lemma hex_digit_inj (x y : Z) :
  0 <= x < 16 -> 0 <= y < 16 -> hex_digit x = hex_digit y -> x = y.
Proof.
  intros Hx Hy H. unfold hex_digit in H. apply (f_equal nat_of_ascii) in H.
  revert H. destruct (Z.ltb_spec x 10), (Z.ltb_spec y 10);
    rewrite !nat_ascii_embedding by lia; lia.
Qed.

Lemma hex_pair_inj (a b : byte) :
  hex_digit (b2z a / 16) = hex_digit (b2z b / 16) ->
  hex_digit (b2z a mod 16) = hex_digit (b2z b mod 16) -> a = b.
Proof.
  intros Hh Hl. pose proof (b2z_range a). pose proof (b2z_range b).
  apply hex_digit_inj in Hh;
    [|split; [apply Z.div_pos; lia|apply Z.div_lt_upper_bound; lia]..].
  apply hex_digit_inj in Hl; [|apply Z.mod_pos_bound; lia..].
  apply b2z_inj.
  rewrite (Z.div_mod (b2z a) 16), (Z.div_mod (b2z b) 16) by lia. congruence.
Qed.

(** X22: [printUIDHex] writes a line of fixed shape: for each of the four
    bytes two upper-case hexadecimal digits, the high one first and a zero
    put in front of a single digit, colons between the bytes, and the line
    end; two identifiers that print the same are the same. *)
Theorem printUIDHex_format (u v : UID) :
  printUIDHex u =
    String (hex_digit (b2z (uid0 u) / 16)) (String (hex_digit (b2z (uid0 u) mod 16)) (String ":"
    (String (hex_digit (b2z (uid1 u) / 16)) (String (hex_digit (b2z (uid1 u) mod 16)) (String ":"
    (String (hex_digit (b2z (uid2 u) / 16)) (String (hex_digit (b2z (uid2 u) mod 16)) (String ":"
    (String (hex_digit (b2z (uid3 u) / 16)) (String (hex_digit (b2z (uid3 u) mod 16))
       CRLF)))))))))) /\
  String.length (printUIDHex u) = 13%nat /\
  (printUIDHex u = printUIDHex v <-> u = v).
Proof.
  destruct u as [a b c d], v as [a' b' c' d'].
  rewrite !printUIDHex_text. cbn [uid0 uid1 uid2 uid3].
  split; [reflexivity|]. split; [reflexivity|]. split.
  - intros H. injection H as H1 H2 H3 H4 H5 H6 H7 H8.
    rewrite (hex_pair_inj a a'), (hex_pair_inj b b'), (hex_pair_inj c c'),
      (hex_pair_inj d d') by assumption.
    reflexivity.
  - intros [= -> -> -> ->]. reflexivity.
Qed.

(** ** Enrolling a card and using it *)

Lemma loop_scan_armed (w : World) (uid : UID) (t : Z) :
  isUIDEmpty (readMasterUID (eeprom w)) = false ->
  compareUID uid (readMasterUID (eeprom w)) = false ->
  regMode w = true ->
  eeprom (loop (scan uid t) w) = store_toggle uid (eeprom w) /\
  regMode (loop (scan uid t) w) = negb (REG_MODE_TIMEOUT_MS <? u32 (t - regModeStarted w)) /\
  regModeStarted (loop (scan uid t) w) = regModeStarted w.
Proof.
  intros Hset Hcmp Hreg.
  split; [apply loop_toggles_regardless_of_clock; assumption|].
  rewrite loop_scan, Hset, Hcmp, Hreg. cbv zeta.
  change (regMode (emit CardHalt (toggleAuthorizedCard uid w)))
    with (regMode (toggleAuthorizedCard uid w)).
  change (regModeStarted (emit CardHalt (toggleAuthorizedCard uid w)))
    with (regModeStarted (toggleAuthorizedCard uid w)).
  rewrite regMode_toggleAuthorizedCard, regModeStarted_toggleAuthorizedCard, Hreg.
  cbn [andb].
  destruct (REG_MODE_TIMEOUT_MS <? u32 (t - regModeStarted w)); cbn;
    rewrite ?regMode_toggleAuthorizedCard, ?regModeStarted_toggleAuthorizedCard; auto.
Qed.

(** X23: enrolling a card and then using it.  From a store with a master
    and room left, with registration off: the master is scanned, then a
    card that is not enrolled, no later than [REG_MODE_TIMEOUT_MS] after
    the master, then the master again, then the card.  The last scan finds
    the card enrolled and registration off, and ends with the OK beep and
    a relay pulse. *)
Theorem enrol_then_open (w : World) (uid : UID) (t0 t1 t2 t3 : Z) :
  store_wf (eeprom w) ->
  isUIDEmpty (readMasterUID (eeprom w)) = false ->
  compareUID uid (readMasterUID (eeprom w)) = false ->
  regMode w = false ->
  isAuthorized (eeprom w) uid = false ->
  b2z (readCount (eeprom w)) < MAX_CARDS ->
  u32 (t1 - t0) <= REG_MODE_TIMEOUT_MS ->
  let master := readMasterUID (eeprom w) in
  let w' := run [scan master t0; scan uid t1; scan master t2; scan uid t3] w in
  isAuthorized (eeprom w') uid = true /\
  regMode w' = false /\
  exists before,
    output w' = before ++
      [audio_event AUDIO_BEEP_OK; RelayPulse RELAY_ON_TIME_MS; CardHalt].
Proof.
  intros Hwf Hset Hcmp Hreg Hno Hroom Htime master w'. subst master w'.
  unfold run. cbn [foldl].
  (* the master arms registration *)
  destruct (loop_scan_master w t0 Hset) as (He1 & Hr1 & Hs1 & _).
  set (w1 := loop (scan (readMasterUID (eeprom w)) t0) w) in *.
  rewrite Hreg in Hr1, Hs1. cbn in Hr1.
  (* the card is enrolled, registration stays armed *)
  destruct (loop_scan_armed w1 uid t1) as (He2 & Hr2 & Hs2);
    [rewrite He1; exact Hset|rewrite He1; exact Hcmp|exact Hr1|].
  set (w2 := loop (scan uid t1) w1) in *.
  rewrite He1 in He2.
  assert (find_slot (eeprom w) uid = None) as E.
  { rewrite isAuthorized_find in Hno. destruct (find_slot _ _); [discriminate|reflexivity]. }
  assert (eeprom w2 = store_add uid (eeprom w)) as He2'.
  { rewrite He2. unfold store_toggle. rewrite E.
    destruct (Z.leb_spec MAX_CARDS (b2z (readCount (eeprom w)))); [lia|reflexivity]. }
  assert (regMode w2 = true) as Hr2'.
  { rewrite Hr2, Hs1. destruct (Z.ltb_spec REG_MODE_TIMEOUT_MS (u32 (t1 - t0))); [lia|reflexivity]. }
  assert (readMasterUID (eeprom w2) = readMasterUID (eeprom w)) as Hm2
    by (rewrite He2'; apply readMasterUID_store_add).
  assert (isAuthorized (eeprom w2) uid = true) as Hyes.
  { rewrite He2', isAuthorized_store_add by assumption.
    rewrite compareUID_refl. apply orb_true_r. }
  (* the master cancels registration *)
  assert (isUIDEmpty (readMasterUID (eeprom w2)) = false) as Hset2 by (rewrite Hm2; exact Hset).
  destruct (loop_scan_master w2 t2 Hset2) as (He3 & Hr3 & _).
  rewrite Hm2 in He3, Hr3.
  set (w3 := loop (scan (readMasterUID (eeprom w)) t2) w2) in *.
  rewrite Hr2' in Hr3. cbn in Hr3.
  (* the card opens the gate *)
  rewrite (loop_scan_idle w3 uid t3)
    by (rewrite ?He3, ?Hm2; assumption).
  cbn [eeprom regMode output]. rewrite He3, Hyes.
  split; [reflexivity|]. split; [reflexivity|]. eexists. reflexivity.
Qed.

Lemma enrol_then_open_witness :
  isAuthorized
    (eeprom (run [scan cardM 100; scan cardA 200; scan cardM 300; scan cardA 400] w_master))
    cardA = true.
Proof.
  destruct (enrol_then_open w_master cardA 100 200 300 400) as [H _];
    [split; vm_compute; [reflexivity|discriminate]
    |vm_compute; reflexivity|vm_compute; reflexivity|vm_compute; reflexivity
    |vm_compute; reflexivity|vm_compute; reflexivity|vm_compute; discriminate|].
  exact H.
Defined.
